(** * HappyQuotes: a verification model of [happyquotes.py]

    The development embeds the selection engine ([load_history],
    [save_history], [pick_quote]), the notifier ([_applescript_escape],
    [show_notification]), one cycle ([run_once]) and the scheduler
    ([daemon_loop]) of [src/happyquotes.py], and proves the properties the
    specification states about them.

    Python values are modelled as follows.
    - A [str] is a list of Unicode code points, so that [len] counts what
      Python counts (the ellipsis U+2026 is one character).
    - A value produced by [json.load] is a [json] tree.
    - Exceptions are identified by their class; [except C] is a subclass
      test along the method resolution order of the class.
    - The file system, the log and the notification facility form the
      [world] that every operation threads through; an operation returns a
      value or raises, together with the world it leaves behind. *)

From Stdlib Require Import String Ascii.
From Stdlib Require Import List NArith ZArith Bool Lia.
Import ListNotations.

Set Implicit Arguments.

(** ** Python strings *)

Module Str.

Definition char := N.
Definition str := list char.

(** A literal of the source that holds ASCII characters only. *)
Definition of_ascii (s : String.string) : str :=
  map Ascii.N_of_ascii (String.list_ascii_of_string s).

Definition char_eqb : char -> char -> bool := N.eqb.

Fixpoint eqb (s t : str) : bool :=
  match s, t with
  | [], [] => true
  | c :: s', d :: t' => char_eqb c d && eqb s' t'
  | _, _ => false
  end.

Fixpoint startswith (s prefix : str) : bool :=
  match prefix, s with
  | [], _ => true
  | p :: prefix', c :: s' => char_eqb c p && startswith s' prefix'
  | _ :: _, [] => false
  end.

(** [sub in s] for two strings: [sub] occurs somewhere in [s]. *)
Fixpoint contains (s sub : str) : bool :=
  startswith s sub ||
  match s with
  | [] => false
  | _ :: s' => contains s' sub
  end.

(** [s.replace(old, new)] where [old] is one character, as both calls
    of the source are: every occurrence of [old] becomes [new]. *)
Definition replace (old : char) (new : str) (s : str) : str :=
  flat_map (fun c => if char_eqb c old then new else [c]) s.

Definition backslash : char := 92%N.
Definition dquote : char := 34%N.
Definition space : char := 32%N.
Definition ellipsis : char := 8230%N.   (* U+2026 *)
Definition em_dash : char := 8212%N.    (* U+2014 *)
Definition sparkles : char := 10024%N.  (* U+2728 *)

End Str.

Import Str.

(** ** Exceptions *)

Inductive exn_class :=
| BaseException | Exception | KeyboardInterrupt | SystemExit
| OSError | FileNotFoundError | PermissionError
| ValueError | UnicodeDecodeError | JSONDecodeError
| LookupError | IndexError | KeyError
| TypeError | AttributeError | RuntimeError | RecursionError.

Definition exn_class_eqb (c d : exn_class) : bool :=
  match c, d with
  | BaseException, BaseException | Exception, Exception
  | KeyboardInterrupt, KeyboardInterrupt | SystemExit, SystemExit
  | OSError, OSError | FileNotFoundError, FileNotFoundError
  | PermissionError, PermissionError | ValueError, ValueError
  | UnicodeDecodeError, UnicodeDecodeError
  | JSONDecodeError, JSONDecodeError | LookupError, LookupError
  | IndexError, IndexError | KeyError, KeyError | TypeError, TypeError
  | AttributeError, AttributeError | RuntimeError, RuntimeError
  | RecursionError, RecursionError => true
  | _, _ => false
  end.

(** The direct base class, as Python declares it. *)
Definition base (c : exn_class) : option exn_class :=
  match c with
  | BaseException => None
  | Exception | KeyboardInterrupt | SystemExit => Some BaseException
  | OSError | ValueError | LookupError | TypeError | AttributeError
  | RuntimeError => Some Exception
  | FileNotFoundError | PermissionError => Some OSError
  | UnicodeDecodeError | JSONDecodeError => Some ValueError
  | IndexError | KeyError => Some LookupError
  | RecursionError => Some RuntimeError
  end.

Fixpoint mro_from (depth : nat) (c : exn_class) : list exn_class :=
  c :: match depth, base c with
       | S d, Some b => mro_from d b
       | _, _ => []
       end.

(** No class of the hierarchy is deeper than four levels. *)
Definition mro : exn_class -> list exn_class := mro_from 4.

Definition issubclass (c d : exn_class) : bool :=
  existsb (exn_class_eqb d) (mro c).

(** [except (C1, C2, ...)] *)
Definition caught_by (handlers : list exn_class) (e : exn_class) : bool :=
  existsb (issubclass e) handlers.

Inductive result (A : Type) :=
| Return (v : A)
| Raise (e : exn_class).

Arguments Raise {A} e.

(** ** JSON values and quotes *)

#[local] Set Warnings "-register-all".

Inductive json :=
| JNull
| JBool (b : bool)
| JInt (z : Z)
| JFloat (mantissa exponent : Z)
| JStr (s : str)
| JArr (items : list json)
| JObj (members : list (str * json)).

(** A quote record of the pool: the keys ["q"] (text) and ["a"] (author). *)
Record quote := { quote_q : str; quote_a : str }.

(** [x == v] for a string [x]: only an equal string compares equal. *)
Definition str_eq_json (x : str) (v : json) : bool :=
  match v with
  | JStr s => Str.eqb x s
  | _ => false
  end.

(** [x in history] for a string [x] and whatever [json.load] returned. *)
Definition py_in (x : str) (history : json) : result bool :=
  match history with
  | JArr items => Return (existsb (str_eq_json x) items)
  | JStr s => Return (Str.contains s x)
  | JObj members => Return (existsb (fun kv => Str.eqb x (fst kv)) members)
  | JNull | JBool _ | JInt _ | JFloat _ _ => Raise TypeError
  end.

(** [history.append(x)]: only a list has the method. *)
Definition py_append (history : json) (x : str) : result json :=
  match history with
  | JArr items => Return (JArr (items ++ [JStr x]))
  | _ => Raise AttributeError
  end.

(** ** The world *)

(** What a file holds, told apart by what [open(..., encoding="utf-8")]
    and [json.load] do with it; every file falls under exactly one case.
    - [Undecodable]: bytes that are not UTF-8; reading raises
      [UnicodeDecodeError].
    - [Malformed]: text that the decoder rejects as no JSON document,
      with [JSONDecodeError].
    - [BigInteger]: text with an integer literal of more digits than
      [int] converts (4300 unless configured otherwise); the decoder
      raises [ValueError].
    - [TooDeep]: text nested deeper than the decoder recurses, a document
      or not; the decoder raises [RecursionError].
    - [Document v]: text that [json.load] decodes, to [v]. *)
Inductive file_content (A : Type) :=
| Undecodable
| Malformed
| BigInteger
| TooDeep
| Document (v : A).

Arguments Undecodable {A}.
Arguments Malformed {A}.
Arguments BigInteger {A}.
Arguments TooDeep {A}.

Inductive file_state (A : Type) :=
| Absent
| Unreadable
| File (c : file_content A).

Arguments Absent {A}.
Arguments Unreadable {A}.

Inductive signum := SIGTERM | SIGINT.

Inductive log_entry :=
| ShowingQuote (text : str)
| DaemonStarted (interval : nat)
| ReceivedSignal (s : signum)
| ErrorShowingQuote (e : exn_class)
| DaemonStopped.

Record world := {
  quotes_file : file_state (list quote);  (* QUOTES_FILE *)
  history_file : file_state json;         (* HISTORY_FILE *)
  history_writable : bool;                (* may HISTORY_FILE be opened "w" *)
  log : list log_entry;                   (* LOG_FILE, oldest entry first *)
  scripts : list str                      (* scripts handed to osascript *)
}.

Definition set_history (w : world) (f : file_state json) : world :=
  {| quotes_file := quotes_file w; history_file := f;
     history_writable := history_writable w; log := log w;
     scripts := scripts w |}.

Definition set_quotes (w : world) (f : file_state (list quote)) : world :=
  {| quotes_file := f; history_file := history_file w;
     history_writable := history_writable w; log := log w;
     scripts := scripts w |}.

Definition add_log (w : world) (entry : log_entry) : world :=
  {| quotes_file := quotes_file w; history_file := history_file w;
     history_writable := history_writable w; log := log w ++ [entry];
     scripts := scripts w |}.

Definition add_script (w : world) (script : str) : world :=
  {| quotes_file := quotes_file w; history_file := history_file w;
     history_writable := history_writable w; log := log w;
     scripts := scripts w ++ [script] |}.

(** ** The monad of operations *)

Definition M (A : Type) : Type := world -> result A * world.

Definition ret {A} (v : A) : M A := fun w => (Return v, w).

Definition raise {A} (e : exn_class) : M A := fun w => (Raise e, w).

Definition bind {A B} (m : M A) (k : A -> M B) : M B :=
  fun w =>
    match m w with
    | (Return v, w') => k v w'
    | (Raise e, w') => (Raise e, w')
    end.

Definition lift {A} (r : result A) : M A := fun w => (r, w).

(** [try: m  except handlers: h] *)
Definition try_except {A} (m : M A) (handlers : list exn_class)
    (h : exn_class -> M A) : M A :=
  fun w =>
    match m w with
    | (Return v, w') => (Return v, w')
    | (Raise e, w') =>
        if caught_by handlers e then h e w' else (Raise e, w')
    end.

Declare Scope py_scope.
Delimit Scope py_scope with py.
Notation "x <- m ;; k" := (bind m (fun x => k))
  (at level 61, m at next level, right associativity) : py_scope.
Notation "m ;; k" := (bind m (fun _ => k))
  (at level 61, right associativity) : py_scope.
Open Scope py_scope.

(** ** Constants *)

Definition MAX_QUOTE_LEN : nat := 200.
Definition INTERVAL : nat := 3600.

(** ** History tracker *)

(** [open(path, "r", encoding="utf-8")] followed by [json.load]. *)
Definition open_and_load {A} (f : file_state A) : result A :=
  match f with
  | Absent => Raise FileNotFoundError
  | Unreadable => Raise PermissionError
  | File Undecodable => Raise UnicodeDecodeError
  | File Malformed => Raise JSONDecodeError
  | File BigInteger => Raise ValueError
  | File TooDeep => Raise RecursionError
  | File (Document v) => Return v
  end.

Definition exists_ {A} (f : file_state A) : bool :=
  match f with Absent => false | _ => true end.

Definition load_quotes : M (list quote) :=
  fun w => (open_and_load (quotes_file w), w).

Definition load_history : M json :=
  fun w =>
    if exists_ (history_file w) then
      try_except (fun w => (open_and_load (history_file w), w))
                 [JSONDecodeError; ValueError]
                 (fun _ => ret (JArr [])) w
    else ret (JArr []) w.

(** [open(HISTORY_FILE, "w")] either raises and leaves the file as it
    is, or the whole history is written.  A write that fails after the
    file has been opened, and so emptied, is not followed. *)
Definition save_history (history : json) : M unit :=
  fun w =>
    if history_writable w
    then (Return tt, set_history w (File (Document history)))
    else (Raise PermissionError, w).

(** ** Selector *)

(** [[q for q in quotes if q["q"] not in history]] *)
Fixpoint not_shown (quotes : list quote) (history : json)
    : result (list quote) :=
  match quotes with
  | [] => Return []
  | q :: rest =>
      match py_in (quote_q q) history with
      | Raise e => Raise e
      | Return shown =>
          match not_shown rest history with
          | Raise e => Raise e
          | Return keep => Return (if shown then keep else q :: keep)
          end
      end
  end.

(** [random.choice(seq)]: [IndexError] on an empty sequence, otherwise
    the element at a position below [len(seq)]; [rng] is the draw of the
    generator, and every position is the outcome of some draw. *)
Definition random_choice {A} (rng : nat) (seq : list A) : result A :=
  match seq with
  | [] => Raise IndexError
  | x :: _ => Return (nth (rng mod length seq) seq x)
  end.

Definition pick_quote (rng : nat) (quotes : list quote) : M quote :=
  history <- load_history ;;
  available <- lift (not_shown quotes history) ;;
  let '(history, available) :=
    match available with
    | [] => (JArr [], quotes)      (* pool exhausted: reset history *)
    | _ => (history, available)
    end in
  quote <- lift (random_choice rng available) ;;
  history <- lift (py_append history (quote_q quote)) ;;
  save_history history ;;
  ret quote.

(** ** Notifier *)

Definition _applescript_escape (s : str) : str :=
  Str.replace dquote [backslash; dquote]
    (Str.replace backslash [backslash; backslash] s).

(** Lines 74-75 of [show_notification]: the message after truncation. *)
Definition notification_body (message : str) : str :=
  if MAX_QUOTE_LEN <? length message
  then firstn (MAX_QUOTE_LEN - 1) message ++ [ellipsis]
  else message.

(** Lines 77-82 of [show_notification]: the script handed to osascript. *)
Definition applescript (title message : str) : str :=
  let message := notification_body message in
  let escaped_message := _applescript_escape message in
  let escaped_title := _applescript_escape title in
  of_ascii "display notification "%string ++ [dquote] ++ escaped_message
    ++ [dquote] ++ [space]
    ++ of_ascii "with title "%string ++ [dquote] ++ escaped_title ++ [dquote].

(** [osascript] is the exit status the OS facility reports for a script.
    This is the call on the paths where the temporary file is written and
    osascript is started: the script is handed over, and the call returns
    or raises [RuntimeError].  The paths on which the file cannot be
    written or osascript cannot be started, and the temporary file
    itself, are followed by [dispatch] further down. *)
Definition show_notification (osascript : str -> Z) (title message : str)
    : M unit :=
  fun w =>
    let script := applescript title message in
    let w' := add_script w script in
    if (osascript script =? 0)%Z
    then (Return tt, w')
    else (Raise RuntimeError, w').

(** ** One cycle *)

Definition logging_info (entry : log_entry) : M unit :=
  fun w => (Return tt, add_log w entry).

Definition logging_exception (e : exn_class) : M unit :=
  fun w => (Return tt, add_log w (ErrorShowingQuote e)).

(** What one cycle takes from its environment: the draw of the random
    generator, the behaviour of osascript, and how long the cycle lasts
    (milliseconds). *)
Record cycle_input := {
  rng : nat;
  osascript : str -> Z;
  duration : N
}.

(** [f'"{quote["q"]}" — {quote["a"]}'] *)
Definition quote_text (quote : quote) : str :=
  [dquote] ++ quote_q quote ++ [dquote; space; em_dash; space]
    ++ quote_a quote.

Definition title : str := of_ascii "HappyQuotes "%string ++ [sparkles].

Definition run_once (ci : cycle_input) : M unit :=
  quotes <- load_quotes ;;
  quote <- pick_quote (rng ci) quotes ;;
  let text := quote_text quote in
  logging_info (ShowingQuote text) ;;
  show_notification (osascript ci) title text.

(** Single-shot branch of [main]: the exit status of the process. *)
Definition main_once (ci : cycle_input) : world -> Z * world :=
  fun w =>
    match run_once ci w with
    | (Return _, w') => (0%Z, w')
    | (Raise e, w') =>
        if issubclass e Exception
        then (1%Z, add_log w' (ErrorShowingQuote e))
        else (1%Z, w')
    end.

(** ** Scheduler *)

(** Time is counted in milliseconds since the daemon started.  A signal
    that arrives while an operation is in progress is handled before the
    operation ends: [time.sleep] resumes after the handler returns, so a
    slice always lasts its full second. *)
Record daemon := {
  now : N;
  shutdown : bool;                 (* the flag of [daemon_loop] *)
  pending : list (N * signum);     (* signals not yet arrived *)
  state : world;
  cycles : nat;                    (* calls of [run_once] so far *)
  slices : nat                     (* calls of [time.sleep(1)] so far *)
}.

Definition handle_signal (s : signum) (d : daemon) : daemon :=
  {| now := now d; shutdown := true; pending := pending d;
     state := add_log (state d) (ReceivedSignal s);
     cycles := cycles d; slices := slices d |}.

Definition arrives_before (t : N) (a : N * signum) : bool := (fst a <? t)%N.

(** Let [ms] milliseconds pass: every pending signal that arrives before
    the end of the period runs its handler. *)
Definition elapse (ms : N) (d : daemon) : daemon :=
  let t := (now d + ms)%N in
  let due := filter (arrives_before t) (pending d) in
  let later := filter (fun a => negb (arrives_before t a)) (pending d) in
  fold_left (fun d a => handle_signal (snd a) d) due
    {| now := t; shutdown := shutdown d; pending := later;
       state := state d; cycles := cycles d; slices := slices d |}.

(** [time.sleep(1)] *)
Definition sleep_1 (d : daemon) : daemon :=
  elapse 1000
    {| now := now d; shutdown := shutdown d; pending := pending d;
       state := state d; cycles := cycles d; slices := S (slices d) |}.

(** [for _ in range(n): if shutdown: break; time.sleep(1)] *)
Fixpoint wait (n : nat) (d : daemon) : daemon :=
  match n with
  | 0 => d
  | S n' => if shutdown d then d else wait n' (sleep_1 d)
  end.

(** [try: run_once()  except Exception: logging.exception(...)].  The
    handlers of the signals that arrive during the cycle set the flag and
    log; where their lines fall among the lines of the cycle is not
    followed, they are put after them. *)
Definition cycle (inputs : nat -> cycle_input) (d : daemon)
    : result unit * daemon :=
  let ci := inputs (cycles d) in
  let '(r, w) :=
    try_except (run_once ci) [Exception] logging_exception (state d) in
  (r, elapse (duration ci)
        {| now := now d; shutdown := shutdown d; pending := pending d;
           state := w; cycles := S (cycles d); slices := slices d |}).

Inductive outcome :=
| Stopped                 (* the loop was left and the function returned *)
| Crashed (e : exn_class) (* an exception left the loop *)
| Looping.                (* still in the loop when the fuel ran out *)

(** [while not shutdown: ...]; [fuel] bounds the number of iterations
    that are followed. *)
Fixpoint while_loop (inputs : nat -> cycle_input) (fuel : nat) (d : daemon)
    : outcome * daemon :=
  match fuel with
  | 0 => (Looping, d)
  | S fuel' =>
      if shutdown d then (Stopped, d)
      else
        match cycle inputs d with
        | (Raise e, d') => (Crashed e, d')
        | (Return _, d') => while_loop inputs fuel' (wait INTERVAL d')
        end
  end.

Record environment := {
  arrivals : list (N * signum);    (* when SIGTERM and SIGINT arrive *)
  inputs : nat -> cycle_input      (* what the k-th cycle meets *)
}.

Definition start (env : environment) (w : world) : daemon :=
  {| now := 0; shutdown := false; pending := arrivals env;
     state := add_log w (DaemonStarted INTERVAL);
     cycles := 0; slices := 0 |}.

Definition daemon_loop (env : environment) (fuel : nat) (w : world)
    : outcome * daemon :=
  match while_loop (inputs env) fuel (start env w) with
  | (Stopped, d) =>
      (Stopped,
       {| now := now d; shutdown := shutdown d; pending := pending d;
          state := add_log (state d) DaemonStopped;
          cycles := cycles d; slices := slices d |})
  | other => other
  end.

(** ** AppleScript string literals

    The grammar osascript reads the generated script with: inside double
    quotes a backslash introduces an escape, and the first quote that is
    not escaped closes the literal. *)

Definition unescape (c : char) : option char :=
  if char_eqb c backslash then Some backslash
  else if char_eqb c dquote then Some dquote
  else if char_eqb c 110%N then Some 10%N      (* \n *)
  else if char_eqb c 114%N then Some 13%N      (* \r *)
  else if char_eqb c 116%N then Some 9%N       (* \t *)
  else None.

(** Reads a literal whose opening quote has been consumed: the text it
    denotes and what follows the closing quote. *)
Fixpoint read_literal (s : str) : option (str * str) :=
  match s with
  | [] => None
  | c :: rest =>
      if char_eqb c dquote then Some ([], rest)
      else if char_eqb c backslash then
        match rest with
        | [] => None
        | e :: rest' =>
            match unescape e, read_literal rest' with
            | Some x, Some (text, tail) => Some (x :: text, tail)
            | _, _ => None
            end
        end
      else
        match read_literal rest with
        | Some (text, tail) => Some (c :: text, tail)
        | None => None
        end
  end.

Fixpoint strip_prefix (prefix s : str) : option str :=
  match prefix, s with
  | [], _ => Some s
  | p :: prefix', c :: s' =>
      if char_eqb c p then strip_prefix prefix' s' else None
  | _ :: _, [] => None
  end.

(** Reads [display notification "<body>" with title "<title>"] and gives
    the body and the title the command is run with. *)
Definition read_display_notification (script : str) : option (str * str) :=
  match
    strip_prefix (of_ascii "display notification "%string ++ [dquote]) script
  with
  | None => None
  | Some s1 =>
      match read_literal s1 with
      | None => None
      | Some (body, s2) =>
          match
            strip_prefix (of_ascii " with title "%string ++ [dquote]) s2
          with
          | None => None
          | Some s3 =>
              match read_literal s3 with
              | Some (title, []) => Some (body, title)
              | _ => None
              end
          end
      end
  end.


(** ** Notions the properties are stated with *)

(** The quotes whose text is not yet in the history. *)
Definition fresh (quotes : list quote) (items : list json) : list quote :=
  filter (fun q => negb (existsb (str_eq_json (quote_q q)) items)) quotes.

(** Lines 60-63 of [pick_quote] once the history is known to be a list. *)
Definition choose_and_save (rng : nat) (history : list json)
    (available : list quote) : M quote :=
  fun w =>
    match random_choice rng available with
    | Raise e => (Raise e, w)
    | Return q =>
        if history_writable w
        then (Return q,
              set_history w
                (File (Document (JArr (history ++ [JStr (quote_q q)])))))
        else (Raise PermissionError, w)
    end.

Definition texts (pool : list quote) : list str := map quote_q pool.

(** [H] is a strict subset of [T], both read as sets. *)
Definition strict_subset (H T : list str) : Prop :=
  incl H T /\ exists t, In t T /\ ~ In t H.

(** The history file is absent, or reading it ends in a [ValueError]:
    its content is not UTF-8 text, or is rejected by the decoder as no
    JSON document, or holds an integer too long to convert. *)
Definition absent_or_corrupt (f : file_state json) : bool :=
  match f with
  | Absent | File Undecodable | File Malformed | File BigInteger => true
  | Unreadable | File TooDeep | File (Document _) => false
  end.

(** The same world with an empty history in the history file. *)
Definition with_empty_history (w : world) : world :=
  set_history w (File (Document (JArr []))).

(** What escaping does to one character: a backslash becomes two
    backslashes, a double quote becomes backslash and quote, and any other
    character stays. *)
Definition escape_char (c : char) : str :=
  if char_eqb c backslash then [backslash; backslash]
  else if char_eqb c dquote then [backslash; dquote]
  else [c].

(** ** The pool of the end-to-end example *)

Definition hello : quote :=
  {| quote_q := of_ascii "hello"%string; quote_a := of_ascii "A"%string |}.

Definition world_B : quote :=
  {| quote_q := of_ascii "world"%string; quote_a := of_ascii "B"%string |}.

Definition two_quotes : list quote := [hello; world_B].

(** No history yet, and the home directory can be written. *)
Definition first_run : world :=
  {| quotes_file := File (Document two_quotes); history_file := Absent;
     history_writable := true; log := []; scripts := [] |}.

(** [hello] has been shown. *)
Definition second_run : world :=
  set_history first_run (File (Document (JArr [JStr (quote_q hello)]))).

(** Both quotes have been shown. *)
Definition third_run : world :=
  set_history first_run
    (File (Document (JArr [JStr (quote_q hello); JStr (quote_q world_B)]))).

(** The history file cannot be written. *)
Definition read_only : world :=
  {| quotes_file := File (Document two_quotes); history_file := Absent;
     history_writable := false; log := []; scripts := [] |}.

(** The history file exists and cannot be opened for reading. *)
Definition locked : world := set_history first_run Unreadable.

(** A message of 201 characters. *)
Definition long_message : str := repeat 97%N 201.

(** Every exception that [m] can raise satisfies [P]. *)
Definition raises_only {A} (P : exn_class -> Prop) (m : M A) : Prop :=
  forall w e w', m w = (Raise e, w') -> P e.

(** What [except Exception] catches. *)
Definition ordinary (e : exn_class) : Prop := issubclass e Exception = true.

(** [d'] is a later state of the daemon [d]: time has not run backwards,
    no cycle is forgotten, the signals still pending were pending before,
    and the flag is set only if it was set or a pending signal has
    arrived in the meantime. *)
Definition follows (d d' : daemon) : Prop :=
  (now d <= now d')%N /\
  cycles d <= cycles d' /\
  incl (pending d') (pending d) /\
  (shutdown d' = true ->
   shutdown d = true \/
   exists a, In a (pending d) /\ (fst a < now d')%N).

(** The daemon [d] after [ms] milliseconds in which no signal arrived. *)
Definition later (ms : N) (d : daemon) : daemon :=
  {| now := now d + ms; shutdown := shutdown d; pending := pending d;
     state := state d; cycles := cycles d; slices := slices d |}.

(** The daemon during its first wait, five milliseconds after its start,
    with a SIGTERM due two and a half seconds after the start. *)
Definition waiting : daemon :=
  {| now := 5; shutdown := false; pending := [(2500%N, SIGTERM)];
     state := add_log first_run (DaemonStarted INTERVAL);
     cycles := 1; slices := 0 |}.

(** The daemon at the start of a slice of its first wait, with a SIGTERM
    that arrives at that very moment. *)
Definition on_the_tick : daemon :=
  {| now := 5; shutdown := false; pending := [(5%N, SIGTERM)];
     state := add_log first_run (DaemonStarted INTERVAL);
     cycles := 1; slices := 0 |}.

(** A cycle in which osascript reports a failure. *)
Definition failing_cycle : cycle_input :=
  {| rng := 0; osascript := fun _ => 1%Z; duration := 5 |}.

(** The daemon at its start when no signal is ever sent. *)
Definition undisturbed : daemon :=
  start {| arrivals := []; inputs := fun _ => failing_cycle |} first_run.

(** ** Further operations *)

(** Successive calls of [pick_quote] on the same pool, one per draw, as
    successive cycles make them. *)
Fixpoint pick_quotes (rngs : list nat) (quotes : list quote)
    : M (list quote) :=
  match rngs with
  | [] => ret []
  | rng :: rest =>
      q <- pick_quote rng quotes ;;
      qs <- pick_quotes rest quotes ;;
      ret (q :: qs)
  end.

(** A document on which [in] raises: it is neither a list, nor a string,
    nor an object. *)
Definition not_iterable (v : json) : bool :=
  match v with
  | JNull | JBool _ | JInt _ | JFloat _ _ => true
  | JStr _ | JArr _ | JObj _ => false
  end.

(** A document that supports [in] and has no [append]. *)
Definition str_or_object (v : json) : bool :=
  match v with
  | JStr _ | JObj _ => true
  | _ => false
  end.

(** How the process ends, if it does. *)
Inductive ending :=
| Exited (status : Z) (w : world)  (* the interpreter exits *)
| Interrupted                      (* a signal without handler ends it *)
| Running (w : world).             (* the daemon is still in its loop *)

Definition daemon_flag : str := of_ascii "--daemon"%string.

(** [setup_logging]: creating the log directory and opening the log file
    raise an [OSError] when the file system refuses ([log_ok] is false). *)
Definition setup_logging (log_ok : bool) : M unit :=
  fun w => if log_ok then (Return tt, w) else (Raise OSError, w).

(** [main].  [setup_logging] comes first, outside every [try]: its error
    ends the process with status 1.  Then the daemon when ["--daemon"] is
    among the arguments, one cycle otherwise.  A function that returns
    ends the process with status 0, an exception that nothing catches
    with status 1.  The single cycle takes the first cycle input of the
    environment and starts at time 0; no handler is installed for it, so
    a signal that arrives before it ends ends the process, wherever the
    cycle is. *)
Definition main (argv : list str) (log_ok : bool) (env : environment)
    (fuel : nat) (w : world) : ending :=
  match setup_logging log_ok w with
  | (Raise _, w') => Exited 1 w'
  | (Return _, w') =>
      if existsb (Str.eqb daemon_flag) argv then
        match daemon_loop env fuel w' with
        | (Stopped, d) => Exited 0 (state d)
        | (Crashed _, d) => Exited 1 (state d)
        | (Looping, d) => Running (state d)
        end
      else if existsb (arrives_before (duration (inputs env 0)))
                (arrivals env)
      then Interrupted
      else
        let '(status, w'') := main_once (inputs env 0) w' in
        Exited status w''
  end.

(** The durations of [n] cycles, from the [k]-th on. *)
Fixpoint total_duration (inputs : nat -> cycle_input) (k n : nat) : N :=
  match n with
  | 0 => 0
  | S n' => duration (inputs k) + total_duration inputs (S k) n'
  end.

(** ** The temporary script file

    Lines 84-96 of [show_notification] on a directory of temporary
    files: [mkstemp] creates a file under a name not in use, the script
    is written to it, osascript runs what the file holds, and the
    [finally] clause unlinks the file. *)

Record tmpdir := {
  tmp_files : list (nat * str);   (* name and content *)
  next_name : nat                 (* the name [mkstemp] hands out next *)
}.

(** Every name in use is older than the next name. *)
Definition tmpdir_ok (t : tmpdir) : Prop :=
  forall f, In f (tmp_files t) -> fst f < next_name t.

Definition mkstemp (t : tmpdir) : nat * tmpdir :=
  (next_name t,
   {| tmp_files := (next_name t, []) :: tmp_files t;
      next_name := S (next_name t) |}).

(** [f.write(text)] on the file [path]; [disk_ok] tells whether the
    write goes through. *)
Definition write_file (disk_ok : bool) (path : nat) (text : str)
    (t : tmpdir) : result unit * tmpdir :=
  if disk_ok then
    (Return tt,
     {| tmp_files :=
          map (fun f => if Nat.eqb (fst f) path then (path, text) else f)
              (tmp_files t);
        next_name := next_name t |})
  else (Raise OSError, t).

Definition read_file (path : nat) (t : tmpdir) : option str :=
  match find (fun f => Nat.eqb (fst f) path) (tmp_files t) with
  | Some f => Some (snd f)
  | None => None
  end.

(** [subprocess.run(["osascript", path])]: [run] is what osascript does
    with a script, [None] when the program cannot be started. *)
Definition subprocess_run (run : str -> option Z) (path : nat) (t : tmpdir)
    : result Z :=
  match read_file path t with
  | None => Return 1%Z
  | Some script =>
      match run script with
      | None => Raise FileNotFoundError
      | Some status => Return status
      end
  end.

Definition unlink (path : nat) (t : tmpdir) : tmpdir :=
  {| tmp_files := filter (fun f => negb (Nat.eqb (fst f) path)) (tmp_files t);
     next_name := next_name t |}.

(** [try: body  finally: cleanup] *)
Definition try_finally {A} (body : tmpdir -> result A * tmpdir)
    (cleanup : tmpdir -> tmpdir) : tmpdir -> result A * tmpdir :=
  fun t => let '(r, t') := body t in (r, cleanup t').

Definition dispatch (disk_ok : bool) (run : str -> option Z)
    (title message : str) : tmpdir -> result unit * tmpdir :=
  fun t =>
    let applescript := applescript title message in
    let '(path, t1) := mkstemp t in
    try_finally
      (fun t =>
         match write_file disk_ok path applescript t with
         | (Raise e, t') => (Raise e, t')
         | (Return _, t') =>
             match subprocess_run run path t' with
             | Raise e => (Raise e, t')
             | Return status =>
                 if (status =? 0)%Z then (Return tt, t')
                 else (Raise RuntimeError, t')
             end
         end)
      (unlink path) t1.

(** [d'] has only added lines to the log of [d], and if its flag is set
    and that of [d] was not, a "Received signal" line is among them. *)
Definition logged (d d' : daemon) : Prop :=
  exists more,
    log (state d') = log (state d) ++ more /\
    (shutdown d' = true ->
     shutdown d = true \/ exists s, In (ReceivedSignal s) more).

(** The characters [_applescript_escape] puts a backslash before. *)
Definition special (c : char) : bool :=
  char_eqb c backslash || char_eqb c dquote.

(** * Properties *)

(** ** Strings and JSON membership *)

Lemma str_eqb_eq (s t : str) : Str.eqb s t = true <-> s = t.
Proof.
  revert t; induction s as [|c s IH]; intros [|d t]; simpl;
    try (split; [discriminate | congruence]); try tauto.
  unfold char_eqb. rewrite andb_true_iff, N.eqb_eq, IH.
  split; [intros [-> ->]; reflexivity | intros E; inversion E; auto].
Qed.

Lemma str_eq_json_true (x : str) (v : json) :
  str_eq_json x v = true <-> v = JStr x.
Proof.
  destruct v; simpl; try (split; [discriminate | intros E; discriminate E]).
  rewrite str_eqb_eq. split; [intros -> | intros E; inversion E]; reflexivity.
Qed.

(** [x in items] on a list is membership of the string [x]. *)
Lemma py_in_list (x : str) (items : list json) :
  existsb (str_eq_json x) items = true <-> In (JStr x) items.
Proof.
  rewrite existsb_exists. split.
  - intros (v & Hv & E). apply str_eq_json_true in E. subst v. exact Hv.
  - intros Hx. exists (JStr x). split; [exact Hx | now apply str_eq_json_true].
Qed.

Lemma in_map_JStr (x : str) (H : list str) :
  In (JStr x) (map JStr H) <-> In x H.
Proof.
  rewrite in_map_iff. split.
  - intros (y & E & Hy). inversion E; subst; exact Hy.
  - intros Hx. exists x. auto.
Qed.

(** ** The selector on a history that is a list *)

Lemma not_shown_list (quotes : list quote) (items : list json) :
  not_shown quotes (JArr items) = Return (fresh quotes items).
Proof.
  induction quotes as [|q rest IH]; simpl; [reflexivity|].
  rewrite IH. destruct (existsb _ items); reflexivity.
Qed.

Lemma in_fresh (q : quote) (quotes : list quote) (items : list json) :
  In q (fresh quotes items) <-> In q quotes /\ ~ In (JStr (quote_q q)) items.
Proof.
  unfold fresh. rewrite filter_In, negb_true_iff, <- py_in_list.
  destruct (existsb _ items); intuition congruence.
Qed.

Lemma pick_quote_list rng (quotes : list quote) (items : list json) w :
  load_history w = (Return (JArr items), w) ->
  pick_quote rng quotes w =
    match fresh quotes items with
    | [] => choose_and_save rng [] quotes w
    | available => choose_and_save rng items available w
    end.
Proof.
  intros Hload. unfold pick_quote, bind. rewrite Hload.
  unfold lift. rewrite not_shown_list.
  destruct (fresh quotes items) as [|q0 rest]; unfold choose_and_save;
    (match goal with |- context [random_choice rng ?l] =>
       destruct (random_choice rng l) as [q|e] end);
    simpl; try reflexivity;
    unfold save_history, ret; destruct (history_writable w); reflexivity.
Qed.

Lemma random_choice_in {A} rng (seq : list A) :
  seq <> [] -> exists x, random_choice rng seq = Return x /\ In x seq.
Proof.
  destruct seq as [|x rest]; [congruence|]. intros _.
  eexists. split; [reflexivity|].
  apply nth_In. apply Nat.mod_upper_bound. discriminate.
Qed.

(** ** Selection avoids the history *)

(** C1.  For a pool with at least one quote and a loaded history [H] that
    is a strict subset of the texts of the pool, [pick_quote] returns a
    quote of the pool whose text is not in [H].  The history file is
    taken to be writable: a failed write is a separate matter, settled
    further down. *)
Theorem pick_quote_avoids_history :
  forall rng (pool : list quote) (H : list str) w,
    pool <> [] ->
    load_history w = (Return (JArr (map JStr H)), w) ->
    strict_subset H (texts pool) ->
    history_writable w = true ->
    exists q w',
      pick_quote rng pool w = (Return q, w') /\
      In q pool /\ ~ In (quote_q q) H.
Proof.
  intros rng pool H w _ Hload [_ (t & Ht & HtH)] Hw.
  unfold texts in Ht. apply in_map_iff in Ht. destruct Ht as (q0 & <- & Hq0).
  assert (Hfresh : In q0 (fresh pool (map JStr H))).
  { apply in_fresh. split; [exact Hq0|]. now rewrite in_map_JStr. }
  rewrite (pick_quote_list _ _ Hload).
  destruct (fresh pool (map JStr H)) as [|a rest] eqn:E; [contradiction|].
  destruct (@random_choice_in _ rng (a :: rest)) as (q & Hq & Hin);
    [discriminate|].
  unfold choose_and_save. rewrite Hq, Hw.
  rewrite <- E in Hin. apply in_fresh in Hin. destruct Hin as [Hpool Hnot].
  eexists; eexists. split; [reflexivity|]. split; [exact Hpool|].
  now rewrite <- in_map_JStr.
Qed.

Lemma pick_quote_avoids_history_witness :
  exists q w',
    pick_quote 0 two_quotes second_run = (Return q, w') /\
    In q two_quotes /\ ~ In (quote_q q) [quote_q hello].
Proof.
  apply (@pick_quote_avoids_history 0 two_quotes [quote_q hello] second_run).
  - discriminate.
  - reflexivity.
  - split.
    + intros x [<- | []]. simpl. auto.
    + exists (quote_q world_B). split; [simpl; auto|].
      intros [E | []]. discriminate E.
  - reflexivity.
Defined.

(** ** Reset on exhaustion *)

Lemma fresh_exhausted (pool : list quote) (H : list str) :
  incl (texts pool) H -> fresh pool (map JStr H) = [].
Proof.
  intros Hall. destruct (fresh pool (map JStr H)) as [|q rest] eqn:E;
    [reflexivity|].
  assert (Hq : In q (fresh pool (map JStr H))) by (rewrite E; left; auto).
  apply in_fresh in Hq. destruct Hq as [Hpool Hnot]. exfalso. apply Hnot.
  apply in_map_JStr. apply Hall. unfold texts. now apply in_map.
Qed.

Lemma load_history_document w v :
  history_file w = File (Document v) -> load_history w = (Return v, w).
Proof. intros E. unfold load_history, try_except. rewrite E. reflexivity. Qed.

(** C2.  For a pool with at least one quote, when the loaded history
    holds every text of the pool, [pick_quote] returns a quote of the pool
    instead of failing, and the history it leaves in the history file has
    exactly one element, the text of the quote it chose. *)
Theorem pick_quote_resets_exhausted :
  forall rng (pool : list quote) (H : list str) w,
    pool <> [] ->
    load_history w = (Return (JArr (map JStr H)), w) ->
    incl (texts pool) H ->
    history_writable w = true ->
    exists q w',
      pick_quote rng pool w = (Return q, w') /\
      In q pool /\
      history_file w' = File (Document (JArr [JStr (quote_q q)])) /\
      load_history w' = (Return (JArr [JStr (quote_q q)]), w').
Proof.
  intros rng pool H w Hne Hload Hall Hw.
  rewrite (pick_quote_list _ _ Hload), (fresh_exhausted _ Hall).
  destruct (random_choice_in rng Hne) as (q & Hq & Hin).
  unfold choose_and_save. rewrite Hq, Hw. simpl.
  eexists; eexists. split; [reflexivity|]. split; [exact Hin|].
  split; [reflexivity|]. now apply load_history_document.
Qed.

Lemma pick_quote_resets_exhausted_witness :
  exists q w',
    pick_quote 1 two_quotes third_run = (Return q, w') /\
    In q two_quotes /\
    history_file w' = File (Document (JArr [JStr (quote_q q)])) /\
    load_history w' = (Return (JArr [JStr (quote_q q)]), w').
Proof.
  apply (@pick_quote_resets_exhausted 1 two_quotes
           [quote_q hello; quote_q world_B] third_run).
  - discriminate.
  - reflexivity.
  - intros x Hx. exact Hx.
  - reflexivity.
Defined.

(** ** The history is only appended to *)

(** C10.  When some quote of the pool has a text that is absent from the
    loaded history, the history in the file after the call is the loaded
    history followed by the text of the chosen quote: nothing that was
    there is removed, changed or moved, and one entry is added.  Nothing
    else of the world changes. *)
Theorem pick_quote_appends :
  forall rng (pool : list quote) (items : list json) w,
    load_history w = (Return (JArr items), w) ->
    (exists q0, In q0 pool /\ ~ In (JStr (quote_q q0)) items) ->
    history_writable w = true ->
    exists q w',
      pick_quote rng pool w = (Return q, w') /\
      w' = set_history w
             (File (Document (JArr (items ++ [JStr (quote_q q)])))) /\
      load_history w' = (Return (JArr (items ++ [JStr (quote_q q)])), w').
Proof.
  intros rng pool items w Hload (q0 & Hq0 & Hnot) Hw.
  assert (Hfresh : In q0 (fresh pool items)) by (apply in_fresh; auto).
  rewrite (pick_quote_list _ _ Hload).
  destruct (fresh pool items) as [|a rest]; [contradiction|].
  destruct (@random_choice_in _ rng (a :: rest)) as (q & Hq & _);
    [discriminate|].
  unfold choose_and_save. rewrite Hq, Hw.
  eexists; eexists. split; [reflexivity|]. split; [reflexivity|].
  now apply load_history_document.
Qed.

Lemma pick_quote_appends_witness :
  exists q w',
    pick_quote 0 two_quotes second_run = (Return q, w') /\
    w' = set_history second_run
           (File (Document
              (JArr ([JStr (quote_q hello)] ++ [JStr (quote_q q)])))) /\
    load_history w' =
      (Return (JArr ([JStr (quote_q hello)] ++ [JStr (quote_q q)])), w').
Proof.
  apply (@pick_quote_appends 0 two_quotes [JStr (quote_q hello)] second_run).
  - reflexivity.
  - exists world_B. split; [simpl; auto|].
    intros [E | []]. discriminate E.
  - reflexivity.
Defined.

(** ** The empty pool *)

(** C5.  [pick_quote] on an empty pool never returns a quote: it raises
    and leaves the world as it was.  The error is the [IndexError] that
    [random.choice] raises on the empty pool, whatever the history file
    holds, unless loading the history has already raised. *)
Theorem pick_quote_empty_pool :
  forall rng w,
    exists e,
      pick_quote rng [] w = (Raise e, w) /\
      (e = IndexError \/ load_history w = (Raise e, w)).
Proof.
  intros rng w.
  unfold pick_quote, bind, load_history, try_except, lift, ret.
  destruct (history_file w) as [| |[| | | |v]]; simpl; eauto.
Qed.

Example empty_pool_first_run :
  pick_quote 0 [] first_run = (Raise IndexError, first_run) /\
  fst (main_once {| rng := 0; osascript := fun _ => 0%Z; duration := 0 |}
         (set_quotes first_run (File (Document [])))) = 1%Z.
Proof. split; reflexivity. Qed.

(** ** A failed write of the history *)

Lemma choose_and_save_read_only rng history (available : list quote) w :
  available <> [] -> history_writable w = false ->
  choose_and_save rng history available w = (Raise PermissionError, w).
Proof.
  intros Hne Hw. destruct (random_choice_in rng Hne) as (q & Hq & _).
  unfold choose_and_save. now rewrite Hq, Hw.
Qed.

(** C3, as the specification states it, fails: with a pool of two quotes
    and a history file that cannot be written, a quote is chosen, the
    write fails, and [pick_quote] raises instead of returning the quote. *)
Lemma save_failure_counterexample :
  two_quotes <> [] /\
  random_choice 0 (fresh two_quotes []) = Return hello /\
  save_history (JArr [JStr (quote_q hello)]) read_only
    = (Raise PermissionError, read_only) /\
  pick_quote 0 two_quotes read_only = (Raise PermissionError, read_only) /\
  ~ (exists q w', pick_quote 0 two_quotes read_only = (Return q, w')).
Proof.
  split; [discriminate|]. split; [reflexivity|]. split; [reflexivity|].
  split; [reflexivity|]. intros (q & w' & E). discriminate E.
Qed.

(** C3, amended.  For a non-empty pool, when the history file cannot be
    written after a quote has been chosen, [pick_quote] raises the error
    of the write (a [PermissionError], which is an [OSError]) to its
    caller and returns no quote; the world is unchanged.  The cycle then
    raises the same error before any notification, and the single-shot
    run logs it and exits with status 1. *)
Theorem save_failure_propagates :
  forall ci (pool : list quote) (items : list json) w,
    pool <> [] ->
    quotes_file w = File (Document pool) ->
    load_history w = (Return (JArr items), w) ->
    history_writable w = false ->
    pick_quote (rng ci) pool w = (Raise PermissionError, w) /\
    issubclass PermissionError OSError = true /\
    run_once ci w = (Raise PermissionError, w) /\
    main_once ci w = (1%Z, add_log w (ErrorShowingQuote PermissionError)).
Proof.
  intros ci pool items w Hne Hq Hload Hw.
  assert (Hpick : pick_quote (rng ci) pool w = (Raise PermissionError, w)).
  { rewrite (pick_quote_list _ _ Hload).
    destruct (fresh pool items) as [|a rest];
      apply choose_and_save_read_only; auto; discriminate. }
  assert (Hrun : run_once ci w = (Raise PermissionError, w)).
  { unfold run_once, bind, load_quotes. rewrite Hq. simpl.
    now rewrite Hpick. }
  split; [exact Hpick|]. split; [reflexivity|]. split; [exact Hrun|].
  unfold main_once. now rewrite Hrun.
Qed.

Lemma save_failure_propagates_witness :
  pick_quote 0 two_quotes read_only = (Raise PermissionError, read_only) /\
  issubclass PermissionError OSError = true /\
  run_once {| rng := 0; osascript := fun _ => 0%Z; duration := 0 |} read_only
    = (Raise PermissionError, read_only) /\
  main_once {| rng := 0; osascript := fun _ => 0%Z; duration := 0 |} read_only
    = (1%Z, add_log read_only (ErrorShowingQuote PermissionError)).
Proof.
  apply (@save_failure_propagates
           {| rng := 0; osascript := fun _ => 0%Z; duration := 0 |}
           two_quotes [] read_only).
  - discriminate.
  - reflexivity.
  - reflexivity.
  - reflexivity.
Defined.

(** ** Loading the history *)

(** C4, as the specification states it, fails: a history file that exists
    and cannot be opened makes [load_history] raise, and selection then
    raises too, whereas with an empty history it returns a quote. *)
Lemma unreadable_history_counterexample :
  load_history locked = (Raise PermissionError, locked) /\
  load_history locked <> (Return (JArr []), locked) /\
  caught_by [JSONDecodeError; ValueError] PermissionError = false /\
  pick_quote 0 two_quotes locked = (Raise PermissionError, locked) /\
  fst (pick_quote 0 two_quotes (with_empty_history locked)) = Return hello.
Proof.
  split; [reflexivity|]. split; [discriminate|]. repeat split.
Qed.

(** Text nested deeper than the decoder recurses ends in a
    [RecursionError], which is no [ValueError]: [load_history] raises it,
    and so does selection. *)
Example load_history_too_deep :
  let w := set_history first_run (File TooDeep) in
  load_history w = (Raise RecursionError, w) /\
  caught_by [JSONDecodeError; ValueError] RecursionError = false /\
  pick_quote 0 two_quotes w = (Raise RecursionError, w).
Proof. repeat split. Qed.

(** A document that is not a list is handed on as it is: here an empty
    object, on which selection fails at [history.append]. *)
Example load_history_object :
  let w := set_history first_run (File (Document (JObj []))) in
  load_history w = (Return (JObj []), w) /\
  pick_quote 0 two_quotes w = (Raise AttributeError, w).
Proof. split; reflexivity. Qed.

Lemma load_history_absent_or_corrupt w :
  absent_or_corrupt (history_file w) = true ->
  load_history w = (Return (JArr []), w).
Proof.
  unfold load_history, try_except.
  destruct (history_file w) as [| |[| | | |v]]; simpl;
    try discriminate; reflexivity.
Qed.

(** C4, amended.  When the history file is absent, or reading it ends
    in a [ValueError] (bytes that are not UTF-8 text, text that the
    decoder rejects as no JSON document, an integer too long to
    convert), [load_history] returns the empty history without raising,
    and [pick_quote] does what it does when the file holds an empty
    history: the same quote or the same error, and on success the same
    world. *)
Theorem load_history_tolerates_corruption :
  forall w,
    absent_or_corrupt (history_file w) = true ->
    load_history w = (Return (JArr []), w) /\
    forall rng (pool : list quote),
      fst (pick_quote rng pool w)
        = fst (pick_quote rng pool (with_empty_history w)) /\
      forall q w',
        pick_quote rng pool w = (Return q, w') ->
        pick_quote rng pool (with_empty_history w) = (Return q, w').
Proof.
  intros w Hc.
  pose proof (load_history_absent_or_corrupt w Hc) as Hload.
  split; [exact Hload|]. intros rng pool.
  assert (Hempty : load_history (with_empty_history w)
                   = (Return (JArr []), with_empty_history w))
    by (apply load_history_document; reflexivity).
  rewrite (pick_quote_list _ _ Hload), (pick_quote_list _ _ Hempty).
  assert (Hsame : forall history (available : list quote),
            fst (choose_and_save rng history available w)
              = fst (choose_and_save rng history available
                       (with_empty_history w)) /\
            forall q w',
              choose_and_save rng history available w = (Return q, w') ->
              choose_and_save rng history available (with_empty_history w)
                = (Return q, w')).
  { intros history available. unfold choose_and_save.
    destruct (random_choice rng available) as [q|e]; simpl.
    - destruct (history_writable w); simpl.
      + split; [reflexivity|]. intros q' w' E. inversion E. reflexivity.
      + split; [reflexivity|]. intros q' w' E. discriminate E.
    - split; [reflexivity|]. intros q' w' E. discriminate E. }
  destruct (fresh pool []); apply Hsame.
Qed.

Lemma load_history_tolerates_corruption_witness :
  load_history (set_history first_run (File Malformed))
    = (Return (JArr []), set_history first_run (File Malformed)) /\
  forall rng (pool : list quote),
    fst (pick_quote rng pool (set_history first_run (File Malformed)))
      = fst (pick_quote rng pool
               (with_empty_history (set_history first_run (File Malformed))))
    /\
    forall q w',
      pick_quote rng pool (set_history first_run (File Malformed))
        = (Return q, w') ->
      pick_quote rng pool
        (with_empty_history (set_history first_run (File Malformed)))
        = (Return q, w').
Proof.
  apply (load_history_tolerates_corruption
           (set_history first_run (File Malformed))).
  reflexivity.
Defined.

(** ** Escaping for AppleScript *)

Lemma applescript_escape_chars (s : str) :
  _applescript_escape s = flat_map escape_char s.
Proof.
  unfold _applescript_escape, Str.replace.
  induction s as [|c s IH]; [reflexivity|].
  cbn [flat_map]. rewrite flat_map_app, IH. f_equal.
  unfold escape_char. destruct (char_eqb c backslash) eqn:Eb.
  - reflexivity.
  - cbn [flat_map]. rewrite app_nil_r. reflexivity.
Qed.

Lemma read_literal_escaped (s rest : str) :
  read_literal (flat_map escape_char s ++ dquote :: rest) = Some (s, rest).
Proof.
  induction s as [|c s IH].
  - reflexivity.
  - cbn [flat_map]. unfold escape_char at 1.
    destruct (char_eqb c backslash) eqn:Eb.
    + apply N.eqb_eq in Eb. subst c.
      cbn [app read_literal]. rewrite IH. reflexivity.
    + destruct (char_eqb c dquote) eqn:Eq.
      * apply N.eqb_eq in Eq. subst c.
        cbn [app read_literal]. rewrite IH. reflexivity.
      * cbn [app read_literal]. rewrite Eq, Eb, IH. reflexivity.
Qed.

Lemma strip_prefix_app (prefix s : str) :
  strip_prefix prefix (prefix ++ s) = Some s.
Proof.
  induction prefix as [|p prefix IH]; [destruct s; reflexivity|].
  cbn [app strip_prefix]. unfold char_eqb. now rewrite N.eqb_refl.
Qed.

Lemma read_applescript (t message : str) :
  read_display_notification (applescript t message)
    = Some (notification_body message, t).
Proof.
  unfold read_display_notification, applescript.
  rewrite !applescript_escape_chars.
  rewrite app_assoc, strip_prefix_app.
  cbn [app]. rewrite read_literal_escaped.
  change (space :: of_ascii "with title " ++ dquote :: flat_map escape_char t
            ++ [dquote])
    with ((of_ascii " with title " ++ [dquote])
            ++ flat_map escape_char t ++ [dquote]).
  rewrite strip_prefix_app, read_literal_escaped. reflexivity.
Qed.

(** C9.  For every title and body, [_applescript_escape] turns each
    backslash into two backslashes and each double quote into backslash
    and quote and leaves every other character alone; the literal it
    yields, closed by a quote, reads back as the string that was escaped,
    and the script of [show_notification] reads back as the body after
    truncation and the title. *)
Theorem applescript_escape_round_trip :
  forall (t message : str),
    (forall s, _applescript_escape s = flat_map escape_char s) /\
    (forall s rest,
       read_literal (_applescript_escape s ++ dquote :: rest)
         = Some (s, rest)) /\
    read_display_notification (applescript t message)
      = Some (notification_body message, t) /\
    (forall run w,
       scripts (snd (show_notification run t message w))
         = scripts w ++ [applescript t message]).
Proof.
  intros t message. split; [exact applescript_escape_chars|].
  split.
  - intros s rest. rewrite applescript_escape_chars.
    apply read_literal_escaped.
  - split; [apply read_applescript|].
    intros run w. unfold show_notification.
    destruct (run (applescript t message) =? 0)%Z; reflexivity.
Qed.

Example escape_backslash_quote :
  _applescript_escape [97; backslash; dquote; 98]%N
    = [97; backslash; backslash; backslash; dquote; 98]%N.
Proof. reflexivity. Qed.

(** ** Truncation *)

Lemma notification_body_long (message : str) :
  MAX_QUOTE_LEN < length message ->
  notification_body message
    = firstn (MAX_QUOTE_LEN - 1) message ++ [ellipsis].
Proof.
  intros Hlong. unfold notification_body.
  apply Nat.ltb_lt in Hlong. now rewrite Hlong.
Qed.

(** C6.  For a message of more than 200 characters, the body that is
    dispatched has exactly 200 characters, its last character is the
    ellipsis, it keeps the first 199 characters of the message, and it
    is not the message: the script handed to osascript reads back as that
    body, so the text is never sent untruncated. *)
Theorem long_message_truncated :
  forall (t message : str) run w,
    MAX_QUOTE_LEN < length message ->
    let body := notification_body message in
    length body = 200 /\
    last body 0%N = ellipsis /\
    firstn 199 body = firstn 199 message /\
    body <> message /\
    scripts (snd (show_notification run t message w))
      = scripts w ++ [applescript t message] /\
    read_display_notification (applescript t message) = Some (body, t).
Proof.
  intros t message run w Hlong body. subst body.
  rewrite (notification_body_long _ Hlong).
  unfold MAX_QUOTE_LEN in *. change (200 - 1) with 199.
  assert (Hlen : length (firstn 199 message) = 199)
    by (rewrite length_firstn; lia).
  split; [rewrite length_app, Hlen; reflexivity|].
  split; [apply last_last|].
  split.
  { rewrite firstn_app, firstn_firstn.
    rewrite Hlen, Nat.sub_diag, Nat.min_id. cbn [firstn].
    apply app_nil_r. }
  split.
  { intros E. apply (f_equal (@length _)) in E.
    rewrite length_app, Hlen in E. simpl in E. lia. }
  split.
  { unfold show_notification.
    destruct (run (applescript t message) =? 0)%Z; reflexivity. }
  rewrite read_applescript. now rewrite (notification_body_long _ Hlong).
Qed.

Lemma long_message_truncated_witness :
  let body := notification_body long_message in
  length body = 200 /\
  last body 0%N = ellipsis /\
  firstn 199 body = firstn 199 long_message /\
  body <> long_message /\
  scripts (snd (show_notification (fun _ => 0%Z) title long_message first_run))
    = scripts first_run ++ [applescript title long_message] /\
  read_display_notification (applescript title long_message)
    = Some (body, title).
Proof.
  apply (@long_message_truncated title long_message (fun _ => 0%Z) first_run).
  unfold MAX_QUOTE_LEN, long_message. rewrite repeat_length. lia.
Defined.

(** ** What a cycle can raise *)

Lemma raises_only_bind {A B} (P : exn_class -> Prop) (m : M A)
    (k : A -> M B) :
  raises_only P m -> (forall v, raises_only P (k v)) ->
  raises_only P (bind m k).
Proof.
  intros Hm Hk w e w'. unfold bind.
  destruct (m w) as [[v|e0] w0] eqn:E.
  - apply Hk.
  - intros H. inversion H; subst. eapply Hm; eauto.
Qed.

Lemma raises_only_ret {A} (P : exn_class -> Prop) (v : A) :
  raises_only P (ret v).
Proof. intros w e w' H. discriminate H. Qed.

Lemma raises_only_lift {A} (P : exn_class -> Prop) (r : result A) :
  (forall e, r = Raise e -> P e) -> raises_only P (lift r).
Proof. intros Hr w e w' H. inversion H. now apply Hr. Qed.

Lemma not_shown_raises quotes history e :
  not_shown quotes history = Raise e -> e = TypeError.
Proof.
  induction quotes as [|q rest IH]; simpl; [discriminate|].
  destruct (py_in (quote_q q) history) as [b|e0] eqn:Ein.
  - destruct (not_shown rest history) as [keep|e1]; [discriminate|].
    intros H. inversion H; subst. now apply IH.
  - intros H. inversion H; subst.
    destruct history; simpl in Ein; congruence.
Qed.

Lemma load_history_ordinary : raises_only ordinary load_history.
Proof.
  intros w e w'. unfold load_history, try_except, ret.
  destruct (history_file w) as [| |[| | | |v]]; simpl; intros H;
    inversion H; reflexivity.
Qed.

Lemma save_history_ordinary history :
  raises_only ordinary (save_history history).
Proof.
  intros w e w'. unfold save_history.
  destruct (history_writable w); intros H; inversion H; reflexivity.
Qed.

Lemma pick_quote_ordinary rng quotes :
  raises_only ordinary (pick_quote rng quotes).
Proof.
  unfold pick_quote.
  apply raises_only_bind; [exact load_history_ordinary|]. intros history.
  apply raises_only_bind.
  { apply raises_only_lift. intros e H.
    apply not_shown_raises in H. subst e. reflexivity. }
  intros available.
  assert (Hrest : forall h (av : list quote),
    raises_only ordinary
      (quote <- lift (random_choice rng av) ;;
       history0 <- lift (py_append h (quote_q quote)) ;;
       save_history history0 ;; ret quote)).
  { intros h av. apply raises_only_bind.
    { apply raises_only_lift. intros e. destruct av; simpl; intros H;
        inversion H; reflexivity. }
    intros q. apply raises_only_bind.
    { apply raises_only_lift. intros e. destruct h; simpl; intros H;
        inversion H; reflexivity. }
    intros h'. apply raises_only_bind; [apply save_history_ordinary|].
    intros _. apply raises_only_ret. }
  destruct available; apply Hrest.
Qed.

Lemma run_once_ordinary ci : raises_only ordinary (run_once ci).
Proof.
  unfold run_once.
  apply raises_only_bind.
  { intros w e w'. unfold load_quotes.
    destruct (quotes_file w) as [| |[| | | |v]]; simpl; intros H;
      inversion H; reflexivity. }
  intros quotes. apply raises_only_bind; [apply pick_quote_ordinary|].
  intros quote. apply raises_only_bind.
  { intros w e w' H. discriminate H. }
  intros _ w e w'. unfold show_notification.
  destruct (_ =? _)%Z; intros H; inversion H; reflexivity.
Qed.

(** ** Time and signals *)

Lemma handlers_run (due : list (N * signum)) (d : daemon) :
  let d' := fold_left (fun d a => handle_signal (snd a) d) due d in
  now d' = now d /\ pending d' = pending d /\
  cycles d' = cycles d /\ slices d' = slices d /\
  shutdown d' = (shutdown d || negb (Nat.eqb (length due) 0)).
Proof.
  revert d. induction due as [|a due IH]; intros d; cbn [fold_left].
  - cbn. rewrite orb_false_r. auto.
  - destruct (IH (handle_signal (snd a) d)) as (Hn & Hp & Hc & Hs & Hf).
    cbn zeta in *. rewrite Hn, Hp, Hc, Hs, Hf. cbn.
    rewrite orb_true_r. auto.
Qed.

Lemma some_due {A} (p : A -> bool) (l : list A) :
  negb (Nat.eqb (length (filter p l)) 0) = existsb p l.
Proof.
  induction l as [|a l IH]; [reflexivity|].
  cbn. destruct (p a); cbn; auto.
Qed.

Lemma elapse_fields ms d :
  now (elapse ms d) = (now d + ms)%N /\
  pending (elapse ms d)
    = filter (fun a => negb (arrives_before (now d + ms) a)) (pending d) /\
  cycles (elapse ms d) = cycles d /\
  slices (elapse ms d) = slices d /\
  shutdown (elapse ms d)
    = (shutdown d || existsb (arrives_before (now d + ms)) (pending d)).
Proof.
  unfold elapse.
  match goal with |- context [fold_left ?f ?due ?d0] =>
    destruct (handlers_run due d0) as (Hn & Hp & Hc & Hs & Hf) end.
  cbn zeta in *. rewrite Hn, Hp, Hc, Hs, Hf. cbn.
  rewrite some_due. repeat split.
Qed.

Lemma filter_none {A} (p : A -> bool) (l : list A) :
  (forall a, In a l -> p a = false) -> filter p l = [].
Proof.
  induction l as [|a l IH]; intros Hp; [reflexivity|]. cbn.
  rewrite (Hp a (or_introl eq_refl)). apply IH.
  intros b Hb. apply Hp. now right.
Qed.

Lemma filter_all {A} (p : A -> bool) (l : list A) :
  (forall a, In a l -> p a = true) -> filter p l = l.
Proof.
  induction l as [|a l IH]; intros Hp; [reflexivity|]. cbn.
  rewrite (Hp a (or_introl eq_refl)). f_equal. apply IH.
  intros b Hb. apply Hp. now right.
Qed.

Lemma elapse_quiet ms d :
  (forall a, In a (pending d) -> (now d + ms <= fst a)%N) ->
  elapse ms d = later ms d.
Proof.
  intros Hq. unfold elapse, later.
  assert (Hnot : forall a, In a (pending d) ->
                   arrives_before (now d + ms) a = false).
  { intros a Ha. unfold arrives_before. apply N.ltb_ge. now apply Hq. }
  rewrite filter_none by exact Hnot.
  rewrite filter_all by (intros a Ha; now rewrite Hnot).
  reflexivity.
Qed.

Lemma follows_refl d : follows d d.
Proof.
  unfold follows. repeat split; auto using incl_refl. apply N.le_refl.
Qed.

Lemma follows_trans d1 d2 d3 : follows d1 d2 -> follows d2 d3 -> follows d1 d3.
Proof.
  intros (Hn1 & Hc1 & Hp1 & Hf1) (Hn2 & Hc2 & Hp2 & Hf2).
  unfold follows. split; [lia|]. split; [lia|].
  split; [eapply incl_tran; eauto|].
  intros H3. destruct (Hf2 H3) as [H2 | (a & Ha & Hlt)].
  - destruct (Hf1 H2) as [H1 | (a & Ha & Hlt)]; [now left|].
    right. exists a. split; [exact Ha | lia].
  - right. exists a. split; [now apply Hp1 | exact Hlt].
Qed.

Lemma follows_elapse ms d d0 :
  now d0 = now d -> shutdown d0 = shutdown d -> pending d0 = pending d ->
  cycles d <= cycles d0 ->
  follows d (elapse ms d0).
Proof.
  intros En Es Ep Ec.
  destruct (elapse_fields ms d0) as (Hn & Hp & Hc & _ & Hf).
  unfold follows. rewrite Hn, Hp, Hc, Hf, En, Es, Ep.
  split; [lia|]. split; [exact Ec|].
  split; [intros a Ha; apply filter_In in Ha; tauto|].
  intros H. apply orb_true_iff in H. destruct H as [H | H]; [now left|].
  right. apply existsb_exists in H. destruct H as (a & Ha & Hlt).
  exists a. split; [exact Ha|]. now apply N.ltb_lt.
Qed.

Lemma follows_sleep_1 d : follows d (sleep_1 d).
Proof. unfold sleep_1. apply follows_elapse; auto. Qed.

Lemma wait_shutdown n d : shutdown d = true -> wait n d = d.
Proof. intros H. destruct n; cbn [wait]; [reflexivity | now rewrite H]. Qed.

Lemma follows_wait n d : follows d (wait n d).
Proof.
  revert d. induction n as [|n IH]; intros d; cbn [wait];
    [apply follows_refl|].
  destruct (shutdown d); [apply follows_refl|].
  eapply follows_trans; [apply follows_sleep_1 | apply IH].
Qed.

Lemma wait_cycles n d : cycles (wait n d) = cycles d.
Proof.
  revert d. induction n as [|n IH]; intros d; cbn [wait]; [reflexivity|].
  destruct (shutdown d); [reflexivity|]. rewrite IH.
  unfold sleep_1. now destruct (elapse_fields 1000
    {| now := now d; shutdown := shutdown d; pending := pending d;
       state := state d; cycles := cycles d; slices := S (slices d) |})
    as (_ & _ & Hc & _).
Qed.

Lemma wait_quiet n d :
  shutdown d = false ->
  (forall a, In a (pending d) -> (now d + 1000 * N.of_nat n <= fst a)%N) ->
  wait n d =
    {| now := now d + 1000 * N.of_nat n; shutdown := false;
       pending := pending d; state := state d; cycles := cycles d;
       slices := slices d + n |}.
Proof.
  revert d. induction n as [|n IH]; intros d Hs Hq; cbn [wait].
  - destruct d as [t f p w c k]; cbn in *. subst f.
    f_equal; [lia | lia].
  - rewrite Hs. unfold sleep_1. rewrite elapse_quiet.
    + unfold later; cbn [now shutdown pending state cycles slices].
      rewrite IH; cbn [now shutdown pending state cycles slices].
      * f_equal; lia.
      * exact Hs.
      * intros a Ha. specialize (Hq a Ha). lia.
    + cbn [now pending]. intros a Ha. specialize (Hq a Ha). lia.
Qed.

Lemma wait_signal n d t s :
  shutdown d = false ->
  In (t, s) (pending d) ->
  (now d <= t < now d + 1000 * N.of_nat n)%N ->
  shutdown (wait n d) = true /\
  (now (wait n d) <= t + 1000)%N /\
  (now (wait n d) < t + 1000 \/ exists k, t = now d + 1000 * N.of_nat k)%N.
Proof.
  revert d. induction n as [|n IH]; intros d Hs Hin Ht; [lia|].
  cbn [wait]. rewrite Hs.
  unfold sleep_1.
  set (d0 := {| now := now d; shutdown := shutdown d; pending := pending d;
                state := state d; cycles := cycles d;
                slices := S (slices d) |}).
  destruct (elapse_fields 1000 d0) as (Hn & Hp & _ & _ & Hf).
  set (d1 := elapse 1000 d0) in *.
  unfold d0 in Hn, Hp, Hf. cbn [now shutdown pending] in Hn, Hp, Hf.
  destruct (N.ltb_spec t (now d + 1000)) as [Hdue | Hlater].
  - assert (H1 : shutdown d1 = true).
    { rewrite Hf, Hs. cbn [orb]. apply existsb_exists.
      exists (t, s). split; [exact Hin|]. now apply N.ltb_lt. }
    rewrite (wait_shutdown n _ H1). split; [exact H1|].
    split; [lia|].
    destruct (N.eq_dec t (now d)) as [E | NE].
    + right. exists 0. cbn. lia.
    + left. lia.
  - destruct (shutdown d1) eqn:H1.
    + rewrite (wait_shutdown n _ H1). split; [exact H1|].
      split; [lia|]. left. lia.
    + destruct (IH d1 H1) as (Hsh & Hle & Hstrict).
      * rewrite Hp. apply filter_In. split; [exact Hin|].
        unfold arrives_before. cbn [fst].
        apply negb_true_iff. now apply N.ltb_ge.
      * lia.
      * split; [exact Hsh|]. split; [exact Hle|].
        destruct Hstrict as [Hlt | (k & Hk)]; [now left|].
        right. exists (S k). lia.
Qed.

(** ** The loop *)

Lemma cycle_returns inputs d :
  exists d',
    cycle inputs d = (Return tt, d') /\ follows d d' /\
    cycles d' = S (cycles d).
Proof.
  unfold cycle, try_except.
  destruct (run_once (inputs (cycles d)) (state d)) as [[[]|e] w] eqn:E.
  - eexists. split; [reflexivity|]. split.
    + apply follows_elapse; cbn; auto.
    + now destruct (elapse_fields (duration (inputs (cycles d)))
        {| now := now d; shutdown := shutdown d; pending := pending d;
           state := w; cycles := S (cycles d); slices := slices d |})
        as (_ & _ & Hc & _).
  - assert (Hord : ordinary e) by (eapply run_once_ordinary; exact E).
    unfold ordinary in Hord.
    unfold caught_by. cbn [existsb]. rewrite Hord. cbn [orb].
    unfold logging_exception.
    eexists. split; [reflexivity|]. split.
    + apply follows_elapse; cbn; auto.
    + now destruct (elapse_fields (duration (inputs (cycles d)))
        {| now := now d; shutdown := shutdown d; pending := pending d;
           state := add_log w (ErrorShowingQuote e);
           cycles := S (cycles d); slices := slices d |})
        as (_ & _ & Hc & _).
Qed.

Lemma while_loop_step inputs fuel d d1 :
  shutdown d = false -> cycle inputs d = (Return tt, d1) ->
  while_loop inputs (S fuel) d = while_loop inputs fuel (wait INTERVAL d1).
Proof. intros Hs Hc. cbn [while_loop]. now rewrite Hs, Hc. Qed.

Lemma while_loop_follows inputs fuel d :
  follows d (snd (while_loop inputs fuel d)).
Proof.
  revert d. induction fuel as [|fuel IH]; intros d; cbn [while_loop];
    [apply follows_refl|].
  destruct (shutdown d) eqn:Hs; [apply follows_refl|].
  destruct (cycle_returns inputs d) as (d1 & Hc & Hf & _). rewrite Hc.
  eapply follows_trans; [exact Hf|].
  eapply follows_trans; [apply follows_wait | apply IH].
Qed.

Lemma while_loop_outcome inputs fuel d :
  match fst (while_loop inputs fuel d) with
  | Stopped => shutdown (snd (while_loop inputs fuel d)) = true
  | Crashed _ => False
  | Looping => True
  end.
Proof.
  revert d. induction fuel as [|fuel IH]; intros d; cbn [while_loop];
    [exact I|].
  destruct (shutdown d) eqn:Hs; [exact Hs|].
  destruct (cycle_returns inputs d) as (d1 & Hc & _). rewrite Hc.
  apply IH.
Qed.

(** ** Resilience of the daemon *)



(** The three places a cycle can fail at: the quotes cannot be loaded,
    selection fails, the notification is refused.  After each of them the
    daemon has logged the error and is still running. *)
Example cycle_errors_are_logged :
  let quiet w := {| now := 0; shutdown := false; pending := [];
                    state := w; cycles := 0; slices := 0 |} in
  let after w := snd (cycle (fun _ => failing_cycle) (quiet w)) in
  log (state (after (set_quotes first_run Absent)))
    = [ErrorShowingQuote FileNotFoundError] /\
  log (state (after (set_quotes first_run (File (Document [])))))
    = [ErrorShowingQuote IndexError] /\
  log (state (after first_run))
    = [ShowingQuote (quote_text hello); ErrorShowingQuote RuntimeError] /\
  shutdown (after first_run) = false.
Proof. repeat split. Qed.

(** * Further properties *)

(** ** A round through the pool *)

Lemma pick_quote_fresh rng (pool : list quote) (items : list json) w :
  load_history w = (Return (JArr items), w) ->
  history_writable w = true ->
  fresh pool items <> [] ->
  exists q,
    In q (fresh pool items) /\
    pick_quote rng pool w =
      (Return q,
       set_history w (File (Document (JArr (items ++ [JStr (quote_q q)]))))).
Proof.
  intros Hload Hw Hne. rewrite (pick_quote_list _ _ Hload).
  destruct (random_choice_in rng Hne) as (q & Hq & Hin).
  exists q. split; [exact Hin|].
  destruct (fresh pool items) as [|a rest]; [congruence|].
  unfold choose_and_save. now rewrite Hq, Hw.
Qed.

Lemma str_eqb_refl' (s : str) : Str.eqb s s = true.
Proof. now apply str_eqb_eq. Qed.

Lemma fresh_snoc (pool : list quote) (items : list json) (x : str) :
  fresh pool (items ++ [JStr x])
    = filter (fun p => negb (Str.eqb (quote_q p) x)) (fresh pool items).
Proof.
  unfold fresh. induction pool as [|p pool IH]; [reflexivity|].
  cbn [filter]. rewrite existsb_app. cbn [existsb str_eq_json].
  rewrite orb_false_r, negb_orb.
  destruct (existsb (str_eq_json (quote_q p)) items); cbn [negb andb].
  - exact IH.
  - cbn [filter]. destruct (Str.eqb (quote_q p) x); cbn [negb];
      now rewrite IH.
Qed.

Lemma NoDup_texts_filter (f : quote -> bool) (l : list quote) :
  NoDup (texts l) -> NoDup (texts (filter f l)).
Proof.
  unfold texts. induction l as [|p l IH]; intros Hnd; [constructor|].
  inversion Hnd as [|x xs Hnotin Hrest]; subst. cbn [filter].
  destruct (f p); [|now apply IH].
  cbn [map]. constructor; [|now apply IH].
  intros Hin. apply Hnotin. apply in_map_iff in Hin.
  destruct Hin as (p' & E & Hp'). apply filter_In in Hp'.
  apply in_map_iff. exists p'. tauto.
Qed.

Lemma length_without (l : list quote) (q : quote) :
  NoDup (texts l) -> In q l ->
  S (length (filter (fun p => negb (Str.eqb (quote_q p) (quote_q q))) l))
    = length l.
Proof.
  unfold texts. induction l as [|p l IH]; intros Hnd Hin; [destruct Hin|].
  inversion Hnd as [|x xs Hnotin Hrest]; subst. cbn [filter length].
  destruct Hin as [-> | Hin].
  - rewrite (proj2 (str_eqb_eq _ _) eq_refl). cbn [negb]. f_equal.
    f_equal. apply filter_all. intros p Hp. apply negb_true_iff.
    destruct (Str.eqb (quote_q p) (quote_q q)) eqn:E; [|reflexivity].
    apply str_eqb_eq in E. exfalso. apply Hnotin. rewrite <- E.
    now apply in_map.
  - destruct (Str.eqb (quote_q p) (quote_q q)) eqn:E.
    + apply str_eqb_eq in E. exfalso. apply Hnotin. rewrite E.
      now apply in_map.
    + cbn [negb length]. f_equal. now apply IH.
Qed.

Lemma load_history_saved w v :
  load_history (set_history w (File (Document v)))
    = (Return v, set_history w (File (Document v))).
Proof. now apply load_history_document. Qed.

Lemma pick_quotes_round :
  forall rngs (pool : list quote) (items : list json) w,
    load_history w = (Return (JArr items), w) ->
    history_writable w = true ->
    NoDup (texts pool) ->
    length rngs <= length (fresh pool items) ->
    exists qs w',
      pick_quotes rngs pool w = (Return qs, w') /\
      length qs = length rngs /\
      (forall q, In q qs -> In q (fresh pool items)) /\
      NoDup (texts qs) /\
      load_history w'
        = (Return (JArr (items ++ map JStr (texts qs))), w').
Proof.
  induction rngs as [|rng rest IH]; intros pool items w Hload Hw Hnd Hlen.
  - exists [], w. cbn [pick_quotes texts map]. rewrite app_nil_r.
    repeat split; auto; try constructor; intros q [].
  - cbn [length] in Hlen.
    assert (Hne : fresh pool items <> []).
    { intros E. rewrite E in Hlen. cbn in Hlen. lia. }
    destruct (pick_quote_fresh rng pool Hload Hw Hne) as (q & Hq & Hpick).
    set (w1 := set_history w
                 (File (Document (JArr (items ++ [JStr (quote_q q)]))))) in *.
    assert (Hlen1 : length rest
                    <= length (fresh pool (items ++ [JStr (quote_q q)]))).
    { rewrite fresh_snoc.
      pose proof (@length_without (fresh pool items) q
                    (NoDup_texts_filter _ _ Hnd) Hq). lia. }
    destruct (IH pool (items ++ [JStr (quote_q q)]) w1
                (load_history_saved w _) Hw Hnd Hlen1)
      as (qs & w' & Hrest & Hl & Hin & Hnd' & Hload').
    assert (Hother : forall p, In p qs ->
              In p (fresh pool items) /\ quote_q p <> quote_q q).
    { intros p Hp. specialize (Hin p Hp). rewrite fresh_snoc in Hin.
      apply filter_In in Hin. destruct Hin as [Hf Hneq].
      split; [exact Hf|]. intros E. rewrite E, str_eqb_refl' in Hneq.
      discriminate Hneq. }
    exists (q :: qs), w'.
    split.
    { cbn [pick_quotes]. unfold bind at 1. rewrite Hpick.
      unfold bind at 1. fold w1. rewrite Hrest. reflexivity. }
    split; [cbn [length]; now rewrite Hl|].
    split; [intros p [<- | Hp]; [exact Hq | now apply Hother]|].
    split.
    { cbn [texts map]. constructor; [|exact Hnd'].
      intros Hc. unfold texts in Hc. apply in_map_iff in Hc.
      destruct Hc as (p & E & Hp). now apply (proj2 (Hother p Hp)). }
    rewrite Hload'. cbn [texts map]. now rewrite <- app_assoc.
Qed.

(** X1.  Starting from a history that is a list, with a pool whose texts
    are pairwise different, as many successive picks as there are quotes
    not yet shown all succeed, return quotes of the pool that were not in
    the history, never return the same text twice, and leave the history
    extended by the texts in the order they were chosen. *)
Theorem pick_quotes_no_repeat :
  forall rngs (pool : list quote) (items : list json) w,
    load_history w = (Return (JArr items), w) ->
    history_writable w = true ->
    NoDup (texts pool) ->
    length rngs <= length (fresh pool items) ->
    exists qs w',
      pick_quotes rngs pool w = (Return qs, w') /\
      length qs = length rngs /\
      incl qs pool /\
      NoDup (texts qs) /\
      (forall q, In q qs -> ~ In (JStr (quote_q q)) items) /\
      load_history w'
        = (Return (JArr (items ++ map JStr (texts qs))), w').
Proof.
  intros rngs pool items w Hload Hw Hnd Hlen.
  destruct (pick_quotes_round rngs pool Hload Hw Hnd Hlen)
    as (qs & w' & Hpick & Hl & Hin & Hnd' & Hload').
  exists qs, w'. split; [exact Hpick|]. split; [exact Hl|].
  split; [intros q Hq; apply Hin in Hq; apply in_fresh in Hq; tauto|].
  split; [exact Hnd'|]. split; [|exact Hload'].
  intros q Hq. apply Hin in Hq. apply in_fresh in Hq. tauto.
Qed.

Lemma pick_quotes_no_repeat_witness :
  exists qs w',
    pick_quotes [1; 1] two_quotes first_run = (Return qs, w') /\
    length qs = length [1; 1] /\
    incl qs two_quotes /\
    NoDup (texts qs) /\
    (forall q, In q qs -> ~ In (JStr (quote_q q)) []) /\
    load_history w' = (Return (JArr ([] ++ map JStr (texts qs))), w').
Proof.
  apply (@pick_quotes_no_repeat [1; 1] two_quotes [] first_run).
  - reflexivity.
  - reflexivity.
  - constructor.
    + intros [E | []]. discriminate E.
    + constructor; [intros [] | constructor].
  - cbn. lia.
Defined.

(** X2.  With an empty history and a pool of pairwise different texts,
    one pick per quote of the pool shows every quote of the pool exactly
    once, whatever the draws are. *)
Theorem full_round_shows_every_quote :
  forall rngs (pool : list quote) w,
    load_history w = (Return (JArr []), w) ->
    history_writable w = true ->
    NoDup (texts pool) ->
    length rngs = length pool ->
    exists qs w',
      pick_quotes rngs pool w = (Return qs, w') /\
      NoDup qs /\
      (forall q, In q pool <-> In q qs).
Proof.
  intros rngs pool w Hload Hw Hnd Hlen.
  assert (Hfresh : fresh pool [] = pool).
  { unfold fresh. apply filter_all. reflexivity. }
  destruct (@pick_quotes_round rngs pool [] w Hload Hw Hnd)
    as (qs & w' & Hpick & Hl & Hincl & Hnd' & _).
  { rewrite Hfresh. lia. }
  rewrite Hfresh in Hincl.
  assert (Hndq : NoDup qs).
  { unfold texts in Hnd'. now apply NoDup_map_inv in Hnd'. }
  exists qs, w'. split; [exact Hpick|]. split; [exact Hndq|].
  intros q. split; [|apply Hincl].
  apply (NoDup_length_incl Hndq); [lia | exact Hincl].
Qed.

Lemma full_round_shows_every_quote_witness :
  exists qs w',
    pick_quotes [0; 0] two_quotes first_run = (Return qs, w') /\
    NoDup qs /\
    (forall q, In q two_quotes <-> In q qs).
Proof.
  apply (@full_round_shows_every_quote [0; 0] two_quotes first_run).
  - reflexivity.
  - reflexivity.
  - constructor.
    + intros [E | []]. discriminate E.
    + constructor; [intros [] | constructor].
  - reflexivity.
Defined.

(** ** Which quote can come next *)

Lemma random_choice_reaches {A} (seq : list A) (x : A) :
  In x seq -> exists rng, random_choice rng seq = Return x.
Proof.
  intros Hin. destruct seq as [|a rest]; [destruct Hin|].
  destruct (In_nth _ _ a Hin) as (n & Hn & E).
  exists n. unfold random_choice. now rewrite Nat.mod_small, E.
Qed.

Lemma fresh_nil (pool : list quote) (items : list json) :
  (forall p, In p pool -> In (JStr (quote_q p)) items) ->
  fresh pool items = [].
Proof.
  intros Hall. apply filter_none. intros p Hp.
  apply negb_false_iff. apply py_in_list. now apply Hall.
Qed.

(** X3.  With a history that is a list and a writable history file, every
    quote of the pool that is not in the history is the outcome of some
    draw; and once every quote of the pool is in the history, every quote
    of the pool is the outcome of some draw, the one shown last
    included. *)
Theorem every_candidate_can_be_chosen :
  forall (pool : list quote) (items : list json) w q,
    load_history w = (Return (JArr items), w) ->
    history_writable w = true ->
    In q pool ->
    (~ In (JStr (quote_q q)) items \/
     forall p, In p pool -> In (JStr (quote_q p)) items) ->
    exists rng w', pick_quote rng pool w = (Return q, w').
Proof.
  intros pool items w q Hload Hw Hq [Hnew | Hall].
  - assert (Hin : In q (fresh pool items)) by (apply in_fresh; auto).
    destruct (random_choice_reaches _ _ Hin) as (rng & Hrng).
    exists rng. rewrite (pick_quote_list _ _ Hload).
    destruct (fresh pool items) as [|a rest]; [destruct Hin|].
    unfold choose_and_save. rewrite Hrng, Hw. eauto.
  - destruct (random_choice_reaches _ _ Hq) as (rng & Hrng).
    exists rng. rewrite (pick_quote_list _ _ Hload), (fresh_nil _ _ Hall).
    unfold choose_and_save. rewrite Hrng, Hw. eauto.
Qed.

Lemma every_candidate_can_be_chosen_witness :
  exists rng w', pick_quote rng two_quotes third_run = (Return world_B, w').
Proof.
  apply (@every_candidate_can_be_chosen two_quotes
           [JStr (quote_q hello); JStr (quote_q world_B)] third_run world_B).
  - reflexivity.
  - reflexivity.
  - right. left. reflexivity.
  - right. intros p [<- | [<- | []]]; cbn; auto.
Defined.

(** ** A history file that holds no list *)

(** X4.  When [load_history] returns a JSON number, boolean or null,
    which it does when the history file decodes to one, [pick_quote] on a
    non-empty pool raises [TypeError] at the test [not in] and leaves the
    world as it was, the history file included: the next call meets the
    same file. *)
Theorem scalar_history_raises :
  forall rng (pool : list quote) w v,
    load_history w = (Return v, w) ->
    not_iterable v = true ->
    pool <> [] ->
    pick_quote rng pool w = (Raise TypeError, w).
Proof.
  intros rng pool w v Hload Hv Hne.
  unfold pick_quote, bind. rewrite Hload.
  destruct pool as [|p pool]; [congruence|].
  destruct v; try discriminate Hv; reflexivity.
Qed.

Lemma scalar_history_raises_witness :
  pick_quote 0 two_quotes (set_history first_run (File (Document (JInt 3))))
    = (Raise TypeError, set_history first_run (File (Document (JInt 3)))).
Proof.
  apply (@scalar_history_raises 0 two_quotes
           (set_history first_run (File (Document (JInt 3)))) (JInt 3)).
  - reflexivity.
  - reflexivity.
  - discriminate.
Defined.

Lemma not_shown_keeps (pool : list quote) (v : json) (q0 : quote) :
  str_or_object v = true ->
  In q0 pool -> py_in (quote_q q0) v = Return false ->
  exists a l, not_shown pool v = Return (a :: l).
Proof.
  intros Hv. induction pool as [|p pool IH]; intros Hin Hq0; [destruct Hin|].
  cbn [not_shown].
  assert (Hany : forall x, exists b, py_in x v = Return b).
  { intros x. destruct v; try discriminate Hv; cbn; eauto. }
  assert (Hrest : exists l, not_shown pool v = Return l).
  { clear IH Hin. induction pool as [|p' pool' IH']; cbn [not_shown];
      [eauto|].
    destruct (Hany (quote_q p')) as (b & ->). destruct IH' as (l & ->).
    eauto. }
  destruct Hin as [-> | Hin].
  - rewrite Hq0. destruct Hrest as (l & ->). eauto.
  - destruct (Hany (quote_q p)) as (b & ->).
    destruct (IH Hin Hq0) as (a & l & ->). destruct b; eauto.
Qed.

(** X5.  When [load_history] returns a JSON string or object, which it
    does when the history file decodes to one, and some quote of the pool
    passes the test [not in] (its text is no substring of the string, no
    key of the object), a quote is chosen and [history.append] raises
    [AttributeError]; the world is left as it was. *)
Theorem object_history_raises :
  forall rng (pool : list quote) w v q0,
    load_history w = (Return v, w) ->
    str_or_object v = true ->
    In q0 pool ->
    py_in (quote_q q0) v = Return false ->
    pick_quote rng pool w = (Raise AttributeError, w).
Proof.
  intros rng pool w v q0 Hload Hv Hin Hq0.
  unfold pick_quote, bind. rewrite Hload.
  unfold lift. destruct (not_shown_keeps pool v q0 Hv Hin Hq0) as (a & l & ->).
  destruct (@random_choice_in _ rng (a :: l)) as (q & -> & _);
    [discriminate|].
  destruct v; try discriminate Hv; reflexivity.
Qed.

Lemma object_history_raises_witness :
  pick_quote 0 two_quotes
    (set_history first_run (File (Document (JStr (quote_q hello)))))
    = (Raise AttributeError,
       set_history first_run (File (Document (JStr (quote_q hello))))).
Proof.
  apply (@object_history_raises 0 two_quotes
           (set_history first_run (File (Document (JStr (quote_q hello)))))
           (JStr (quote_q hello)) world_B).
  - reflexivity.
  - reflexivity.
  - right. left. reflexivity.
  - reflexivity.
Defined.

(** ** Repair of the history file *)

(** X6.  When the history file is absent, or reading it ends in a
    [ValueError] (bytes that are not UTF-8, text the decoder rejects as
    no JSON document, an integer too long to convert), and the file can
    be written, a pick on a non-empty pool succeeds and replaces it by a
    well-formed history of one entry, the text of the returned quote; the
    next load returns that list. *)
Theorem corrupt_history_repaired :
  forall rng (pool : list quote) w,
    absent_or_corrupt (history_file w) = true ->
    history_writable w = true ->
    pool <> [] ->
    exists q w',
      pick_quote rng pool w = (Return q, w') /\
      In q pool /\
      absent_or_corrupt (history_file w') = false /\
      load_history w' = (Return (JArr [JStr (quote_q q)]), w').
Proof.
  intros rng pool w Hc Hw Hne.
  pose proof (load_history_absent_or_corrupt w Hc) as Hload.
  assert (Hfresh : fresh pool [] = pool) by (apply filter_all; reflexivity).
  assert (Hne' : fresh pool [] <> []) by (now rewrite Hfresh).
  destruct (pick_quote_fresh rng pool Hload Hw Hne') as (q & Hq & Hpick).
  rewrite Hfresh in Hq.
  eexists; eexists. split; [exact Hpick|]. split; [exact Hq|].
  split; [reflexivity|]. apply load_history_saved.
Qed.

Lemma corrupt_history_repaired_witness :
  exists q w',
    pick_quote 0 two_quotes (set_history first_run (File Undecodable))
      = (Return q, w') /\
    In q two_quotes /\
    absent_or_corrupt (history_file w') = false /\
    load_history w' = (Return (JArr [JStr (quote_q q)]), w').
Proof.
  apply (@corrupt_history_repaired 0 two_quotes
           (set_history first_run (File Undecodable))).
  - reflexivity.
  - reflexivity.
  - discriminate.
Defined.

(** ** What a cycle leaves behind *)

Lemma load_history_keeps w : snd (load_history w) = w.
Proof.
  unfold load_history, try_except, ret.
  destruct (history_file w) as [| |[| | | |v]]; reflexivity.
Qed.

Lemma not_shown_incl (pool : list quote) (v : json) (l : list quote) :
  not_shown pool v = Return l -> incl l pool.
Proof.
  revert l. induction pool as [|p pool IH]; intros l; cbn [not_shown].
  - intros E. inversion E. apply incl_refl.
  - destruct (py_in (quote_q p) v) as [b|e]; [|discriminate].
    destruct (not_shown pool v) as [keep|e]; [|discriminate].
    intros E. inversion E; subst. specialize (IH keep eq_refl).
    destruct b.
    + now apply incl_tl.
    + intros x [<- | Hx]; [now left | right; now apply IH].
Qed.

Lemma finish_effect rng (pool : list quote) (h : json) (av : list quote)
    w r w' :
  incl av pool ->
  (quote <- lift (random_choice rng av) ;;
   history0 <- lift (py_append h (quote_q quote)) ;;
   save_history history0 ;; ret quote) w = (r, w') ->
  (exists e, r = Raise e /\ w' = w) \/
  (exists q l,
     r = Return q /\ In q pool /\ history_writable w = true /\
     w' = set_history w
            (File (Document (JArr (l ++ [JStr (quote_q q)]))))).
Proof.
  intros Hav. unfold bind, lift.
  destruct av as [|a rest]; cbn [random_choice];
    [intros E; inversion E; eauto|].
  set (q0 := nth (rng mod length (a :: rest)) (a :: rest) a).
  assert (Hq0 : In q0 pool).
  { apply Hav. apply nth_In. apply Nat.mod_upper_bound. discriminate. }
  destruct h; cbn [py_append]; try (intros E; inversion E; eauto; fail).
  unfold save_history, ret.
  destruct (history_writable w) eqn:Hw; intros E; inversion E; subst.
  - right. exists q0, items. auto.
  - left. eauto.
Qed.

Lemma pick_quote_effect rng (pool : list quote) w r w' :
  pick_quote rng pool w = (r, w') ->
  (exists e, r = Raise e /\ w' = w) \/
  (exists q l,
     r = Return q /\ In q pool /\ history_writable w = true /\
     w' = set_history w
            (File (Document (JArr (l ++ [JStr (quote_q q)]))))).
Proof.
  unfold pick_quote. unfold bind at 1.
  pose proof (load_history_keeps w) as Hk.
  destruct (load_history w) as [[history|e] w0]; cbn [snd] in Hk; subst w0;
    [|intros E; inversion E; eauto].
  unfold bind at 1. unfold lift at 1.
  destruct (not_shown pool history) as [available|e] eqn:Eav;
    [|intros E; inversion E; eauto].
  pose proof (not_shown_incl _ _ Eav) as Hincl.
  destruct available as [|a rest]; intros E.
  - exact (@finish_effect rng pool (JArr []) pool w r w' (incl_refl _) E).
  - exact (@finish_effect rng pool history (a :: rest) w r w' Hincl E).
Qed.

Lemma run_once_after_pick ci (pool : list quote) w q w1 :
  quotes_file w = File (Document pool) ->
  pick_quote (rng ci) pool w = (Return q, w1) ->
  run_once ci w =
    ((if (osascript ci (applescript title (quote_text q)) =? 0)%Z
      then Return tt else Raise RuntimeError),
     add_script (add_log w1 (ShowingQuote (quote_text q)))
       (applescript title (quote_text q))).
Proof.
  intros Hq Hpick. unfold run_once, bind, load_quotes. rewrite Hq.
  cbn [open_and_load]. rewrite Hpick.
  unfold logging_info, show_notification.
  destruct (_ =? _)%Z; reflexivity.
Qed.

(** X7.  A cycle hands at most one script to osascript, and none
    before the quote is saved and logged: whenever a script has been
    handed over, it is the script of a quote of the pool, the text of
    that quote is the last entry of the saved history, and the line of
    the quote is among the new lines of the log. *)
Theorem script_only_after_save :
  forall ci w r w',
    run_once ci w = (r, w') ->
    scripts w' = scripts w \/
    exists pool q l more,
      quotes_file w = File (Document pool) /\ In q pool /\
      scripts w' = scripts w ++ [applescript title (quote_text q)] /\
      history_file w'
        = File (Document (JArr (l ++ [JStr (quote_q q)]))) /\
      log w' = log w ++ more /\
      In (ShowingQuote (quote_text q)) more.
Proof.
  intros ci w r w' Hrun.
  destruct (quotes_file w) as [| |[| | | |pool]] eqn:Hq;
    try (unfold run_once, bind, load_quotes in Hrun; rewrite Hq in Hrun;
         inversion Hrun; now left).
  destruct (pick_quote (rng ci) pool w) as [r1 w1] eqn:Hpick.
  destruct (@pick_quote_effect (rng ci) pool w r1 w1 Hpick)
    as [(e & -> & ->) | (q & l & -> & Hin & _ & ->)].
  - unfold run_once, bind, load_quotes in Hrun. rewrite Hq in Hrun.
    cbn [open_and_load] in Hrun. rewrite Hpick in Hrun.
    inversion Hrun. now left.
  - rewrite (@run_once_after_pick ci pool w q _ Hq Hpick) in Hrun.
    inversion Hrun. right.
    exists pool, q, l, [ShowingQuote (quote_text q)].
    repeat split; auto. now left.
Qed.

Lemma script_only_after_save_witness :
  scripts (snd (run_once failing_cycle first_run)) = scripts first_run \/
  exists pool q l more,
    quotes_file first_run = File (Document pool) /\ In q pool /\
    scripts (snd (run_once failing_cycle first_run))
      = scripts first_run ++ [applescript title (quote_text q)] /\
    history_file (snd (run_once failing_cycle first_run))
      = File (Document (JArr (l ++ [JStr (quote_q q)]))) /\
    log (snd (run_once failing_cycle first_run)) = log first_run ++ more /\
    In (ShowingQuote (quote_text q)) more.
Proof.
  apply (@script_only_after_save failing_cycle first_run
           (fst (run_once failing_cycle first_run))
           (snd (run_once failing_cycle first_run))).
  reflexivity.
Defined.

Lemma pick_quote_returns rng (pool : list quote) (items : list json) w :
  load_history w = (Return (JArr items), w) ->
  history_writable w = true ->
  pool <> [] ->
  exists q l,
    In q pool /\
    pick_quote rng pool w =
      (Return q,
       set_history w (File (Document (JArr (l ++ [JStr (quote_q q)]))))).
Proof.
  intros Hload Hw Hne. rewrite (pick_quote_list _ _ Hload).
  destruct (fresh pool items) as [|a rest] eqn:E.
  - destruct (random_choice_in rng Hne) as (q & Hq & Hin).
    exists q, []. split; [exact Hin|].
    unfold choose_and_save. now rewrite Hq, Hw.
  - destruct (@random_choice_in _ rng (a :: rest)) as (q & Hq & Hin);
      [discriminate|].
    exists q, items. split.
    + rewrite <- E in Hin. apply in_fresh in Hin. tauto.
    + unfold choose_and_save. now rewrite Hq, Hw.
Qed.

(** X8.  When osascript refuses the notification, the cycle raises
    [RuntimeError] after the fact: the quote nobody saw is already the
    last entry of the saved history, and its line is in the log. *)
Theorem failed_notification_is_recorded :
  forall ci (pool : list quote) (items : list json) w,
    quotes_file w = File (Document pool) ->
    load_history w = (Return (JArr items), w) ->
    history_writable w = true ->
    pool <> [] ->
    (forall script, osascript ci script <> 0%Z) ->
    exists q l w',
      run_once ci w = (Raise RuntimeError, w') /\
      In q pool /\
      load_history w' = (Return (JArr (l ++ [JStr (quote_q q)])), w') /\
      log w' = log w ++ [ShowingQuote (quote_text q)] /\
      scripts w' = scripts w ++ [applescript title (quote_text q)].
Proof.
  intros ci pool items w Hq Hload Hw Hne Hfail.
  destruct (@pick_quote_returns (rng ci) pool items w Hload Hw Hne)
    as (q & l & Hin & Hpick).
  exists q, l. eexists. split.
  { rewrite (@run_once_after_pick ci pool w q _ Hq Hpick).
    destruct (Z.eqb_spec (osascript ci (applescript title (quote_text q))) 0)
      as [E | _]; [now apply Hfail in E | reflexivity]. }
  split; [exact Hin|].
  split; [now apply load_history_document|]. split; reflexivity.
Qed.

Lemma failed_notification_is_recorded_witness :
  exists q l w',
    run_once failing_cycle first_run = (Raise RuntimeError, w') /\
    In q two_quotes /\
    load_history w' = (Return (JArr (l ++ [JStr (quote_q q)])), w') /\
    log w' = log first_run ++ [ShowingQuote (quote_text q)] /\
    scripts w' = scripts first_run ++ [applescript title (quote_text q)].
Proof.
  apply (@failed_notification_is_recorded failing_cycle two_quotes []
           first_run).
  - reflexivity.
  - reflexivity.
  - reflexivity.
  - discriminate.
  - intros script. discriminate.
Defined.

(** X9.  [load_quotes] has no default and nothing catches its error
    within the cycle: when the quotes file is absent, cannot be opened,
    holds bytes that are not UTF-8, or holds text on which the decoder
    gives up (no JSON document, an integer too long to convert, nesting
    too deep), [load_quotes] raises, the cycle raises the same error and
    leaves the world as it was, the error is one that [except Exception]
    catches, and the single-shot branch logs it and ends with status 1. *)
Theorem unusable_quotes_file_is_fatal :
  forall ci w,
    In (quotes_file w)
       [Absent; Unreadable; File Undecodable; File Malformed;
        File BigInteger; File TooDeep] ->
    exists e,
      load_quotes w = (Raise e, w) /\
      run_once ci w = (Raise e, w) /\
      issubclass e Exception = true /\
      main_once ci w = (1%Z, add_log w (ErrorShowingQuote e)).
Proof.
  intros ci w Hbad.
  assert (Hload : exists e, load_quotes w = (Raise e, w)).
  { unfold load_quotes.
    destruct Hbad as [<- | [<- | [<- | [<- | [<- | [<- | []]]]]]];
      cbn; eauto. }
  destruct Hload as (e & Hload). exists e.
  assert (Hrun : run_once ci w = (Raise e, w)).
  { unfold run_once, bind. now rewrite Hload. }
  assert (Hord : ordinary e) by (eapply run_once_ordinary; exact Hrun).
  split; [exact Hload|]. split; [exact Hrun|]. split; [exact Hord|].
  unfold main_once. rewrite Hrun. unfold ordinary in Hord.
  now rewrite Hord.
Qed.

Lemma unusable_quotes_file_is_fatal_witness :
  exists e,
    load_quotes (set_quotes first_run (File TooDeep))
      = (Raise e, set_quotes first_run (File TooDeep)) /\
    run_once failing_cycle (set_quotes first_run (File TooDeep))
      = (Raise e, set_quotes first_run (File TooDeep)) /\
    issubclass e Exception = true /\
    main_once failing_cycle (set_quotes first_run (File TooDeep))
      = (1%Z, add_log (set_quotes first_run (File TooDeep))
                (ErrorShowingQuote e)).
Proof.
  apply (@unusable_quotes_file_is_fatal failing_cycle
           (set_quotes first_run (File TooDeep))).
  cbn. tauto.
Defined.

(** ** The log of the daemon *)

Lemma handlers_state (due : list (N * signum)) (d : daemon) :
  let d' := fold_left (fun d a => handle_signal (snd a) d) due d in
  log (state d')
    = log (state d) ++ map (fun a => ReceivedSignal (snd a)) due /\
  scripts (state d') = scripts (state d) /\
  history_file (state d') = history_file (state d).
Proof.
  revert d. induction due as [|a due IH]; intros d; cbn [fold_left map].
  - cbn. now rewrite app_nil_r.
  - destruct (IH (handle_signal (snd a) d)) as (Hl & Hs & Hh).
    cbn zeta in *. rewrite Hl, Hs, Hh. cbn. now rewrite <- app_assoc.
Qed.

Lemma logged_refl d : logged d d.
Proof. exists []. rewrite app_nil_r. auto. Qed.

Lemma logged_trans d1 d2 d3 : logged d1 d2 -> logged d2 d3 -> logged d1 d3.
Proof.
  intros (m1 & E1 & F1) (m2 & E2 & F2). exists (m1 ++ m2).
  split; [rewrite E2, E1; now rewrite app_assoc|].
  intros H3. destruct (F2 H3) as [H2 | (s & Hs)].
  - destruct (F1 H2) as [H1 | (s & Hs)]; [now left|].
    right. exists s. apply in_or_app. now left.
  - right. exists s. apply in_or_app. now right.
Qed.

Lemma logged_step d d0 more :
  log (state d0) = log (state d) ++ more ->
  shutdown d0 = shutdown d ->
  logged d d0.
Proof.
  intros E F. exists more. split; [exact E|]. rewrite F. now left.
Qed.

Lemma logged_elapse ms d : logged d (elapse ms d).
Proof.
  unfold elapse.
  set (due := filter (arrives_before (now d + ms)) (pending d)).
  set (d0 := {| now := now d + ms; shutdown := shutdown d;
                pending := filter (fun a => negb (arrives_before (now d + ms) a))
                             (pending d);
                state := state d; cycles := cycles d; slices := slices d |}).
  destruct (handlers_state due d0) as (Hl & _).
  destruct (handlers_run due d0) as (_ & _ & _ & _ & Hf).
  cbn zeta in *. exists (map (fun a => ReceivedSignal (snd a)) due).
  split; [exact Hl|]. rewrite Hf. cbn [shutdown d0].
  intros H. apply orb_true_iff in H. destruct H as [H | H]; [now left|].
  right. destruct due as [|a due']; [discriminate H|].
  exists (snd a). now left.
Qed.

Lemma logged_sleep_1 d : logged d (sleep_1 d).
Proof.
  unfold sleep_1. eapply logged_trans; [|apply logged_elapse].
  apply logged_step with (more := []); cbn; [now rewrite app_nil_r | auto].
Qed.

Lemma logged_wait n d : logged d (wait n d).
Proof.
  revert d. induction n as [|n IH]; intros d; cbn [wait];
    [apply logged_refl|].
  destruct (shutdown d); [apply logged_refl|].
  eapply logged_trans; [apply logged_sleep_1 | apply IH].
Qed.

Lemma run_once_log ci w r w' :
  run_once ci w = (r, w') -> exists more, log w' = log w ++ more.
Proof.
  unfold run_once, bind, load_quotes.
  destruct (open_and_load (quotes_file w)) as [pool|e];
    [|intros E; inversion E; subst; exists []; now rewrite app_nil_r].
  destruct (pick_quote (rng ci) pool w) as [r1 w1] eqn:Hpick.
  destruct (@pick_quote_effect (rng ci) pool w r1 w1 Hpick)
    as [(e & -> & ->) | (q & l & -> & _ & _ & ->)].
  - intros E; inversion E; subst. exists []. now rewrite app_nil_r.
  - unfold logging_info, show_notification.
    destruct (_ =? _)%Z; intros E; inversion E; subst;
      eexists; reflexivity.
Qed.

Lemma logged_cycle inputs d : logged d (snd (cycle inputs d)).
Proof.
  unfold cycle, try_except.
  destruct (run_once (inputs (cycles d)) (state d)) as [[[]|e] w] eqn:E;
    destruct (run_once_log _ _ E) as (more & Hmore).
  - cbn [snd]. eapply logged_trans; [|apply logged_elapse].
    apply logged_step with (more := more); cbn; auto.
  - destruct (caught_by [Exception] e); unfold logging_exception;
      cbn [snd]; (eapply logged_trans; [|apply logged_elapse]).
    + apply logged_step with (more := more ++ [ErrorShowingQuote e]);
        cbn; [rewrite Hmore; now rewrite app_assoc | auto].
    + apply logged_step with (more := more); cbn; auto.
Qed.

Lemma logged_while_loop inputs fuel d :
  logged d (snd (while_loop inputs fuel d)).
Proof.
  revert d. induction fuel as [|fuel IH]; intros d; cbn [while_loop];
    [apply logged_refl|].
  destruct (shutdown d); [apply logged_refl|].
  pose proof (logged_cycle inputs d) as Hc.
  destruct (cycle inputs d) as [[[]|e] d1]; cbn [snd] in *; [|exact Hc].
  eapply logged_trans; [exact Hc|].
  eapply logged_trans; [apply logged_wait | apply IH].
Qed.

(** ** Responsiveness of the daemon *)

Lemma sleep_1_fields d :
  now (sleep_1 d) = (now d + 1000)%N /\
  slices (sleep_1 d) = S (slices d) /\
  forall a,
    In a (pending (sleep_1 d))
      <-> In a (pending d) /\ (now (sleep_1 d) <= fst a)%N.
Proof.
  unfold sleep_1.
  set (d0 := {| now := now d; shutdown := shutdown d; pending := pending d;
                state := state d; cycles := cycles d;
                slices := S (slices d) |}).
  destruct (elapse_fields 1000 d0) as (Hn & Hp & _ & Hs & _).
  rewrite Hn, Hp, Hs. cbn [now pending slices d0].
  split; [reflexivity|]. split; [reflexivity|].
  intros a. rewrite filter_In. unfold arrives_before.
  rewrite negb_true_iff, N.ltb_ge. tauto.
Qed.

Lemma wait_account n d :
  slices d <= slices (wait n d) /\
  now (wait n d) = (now d + 1000 * N.of_nat (slices (wait n d) - slices d))%N.
Proof.
  revert d. induction n as [|n IH]; intros d; cbn [wait].
  - split; [lia|]. rewrite Nat.sub_diag. cbn. lia.
  - destruct (shutdown d).
    + split; [lia|]. rewrite Nat.sub_diag. cbn. lia.
    + destruct (IH (sleep_1 d)) as (Hle & Hnow).
      destruct (sleep_1_fields d) as (Hn & Hs & _).
      rewrite Hs in Hle, Hnow. rewrite Hn in Hnow.
      split; [lia|]. rewrite Hnow. lia.
Qed.

Lemma wait_pending n d :
  (forall a, In a (pending d) -> (now d <= fst a)%N) ->
  forall a,
    In a (pending (wait n d))
      <-> In a (pending d) /\ (now (wait n d) <= fst a)%N.
Proof.
  revert d. induction n as [|n IH]; intros d Hinv a; cbn [wait].
  - split; [intros Ha; split; [exact Ha | now apply Hinv] | tauto].
  - destruct (shutdown d).
    + split; [intros Ha; split; [exact Ha | now apply Hinv] | tauto].
    + destruct (sleep_1_fields d) as (Hn & _ & Hp).
      assert (Hinv1 : forall b, In b (pending (sleep_1 d)) ->
                        (now (sleep_1 d) <= fst b)%N)
        by (intros b Hb; now apply Hp in Hb).
      pose proof (follows_wait n (sleep_1 d)) as (Hmono & _).
      rewrite (IH (sleep_1 d) Hinv1 a), Hp.
      split; [tauto|]. intros (Ha & Hle). split; [split|]; auto. lia.
Qed.

Lemma wait_first_slice n d :
  shutdown d = false ->
  (now d < now (wait (S n) d))%N /\
  forall a,
    In a (pending (wait (S n) d))
      <-> In a (pending d) /\ (now (wait (S n) d) <= fst a)%N.
Proof.
  intros Hs. cbn [wait]. rewrite Hs.
  destruct (sleep_1_fields d) as (Hn & _ & Hp).
  pose proof (follows_wait n (sleep_1 d)) as (Hmono & _).
  split; [lia|]. intros a.
  assert (Hinv1 : forall b, In b (pending (sleep_1 d)) ->
                    (now (sleep_1 d) <= fst b)%N)
    by (intros b Hb; now apply Hp in Hb).
  rewrite (wait_pending n (sleep_1 d) Hinv1 a), Hp.
  split; [tauto|]. intros (Ha & Hle). split; [split|]; auto. lia.
Qed.

(** C8, as the specification states it, fails: a SIGTERM that arrives at
    the very start of a one-second slice of the wait, just after the flag
    was tested, leaves the loop sleeping through the whole slice; the
    wait is abandoned a full 1000 ms after the request, which is not
    sub-second. *)
Lemma signal_on_slice_start_counterexample :
  shutdown on_the_tick = false /\
  In (5%N, SIGTERM) (pending on_the_tick) /\
  (now on_the_tick <= 5 < now on_the_tick + 1000 * N.of_nat INTERVAL)%N /\
  now (wait INTERVAL on_the_tick) = (5 + 1000)%N /\
  ~ (now (wait INTERVAL on_the_tick) < 5 + 1000)%N.
Proof.
  split; [reflexivity|]. split; [left; reflexivity|].
  split; [split; [vm_compute; discriminate | vm_compute; reflexivity]|].
  split; [vm_compute; reflexivity|].
  intros H. vm_compute in H. discriminate H.
Qed.

(** C8, amended.  In daemon mode, a termination signal that arrives
    during the wait between two cycles is observed: the handler sets the
    flag and logs the signal, exactly the signals that have arrived by
    the end of the wait have been handled, and the wait is abandoned at
    the end of the one-second slice in progress.  That is at most 1000 ms
    after the signal (less unless the signal falls exactly on the start
    of a slice), one 3600th of the interval; the time passed is that of
    the whole slices slept; no cycle is started after the signal, and the
    loop returns. *)
Theorem wait_abandoned_on_signal :
  forall inputs fuel d t s,
    shutdown d = false ->
    In (t, s) (pending d) ->
    (now d <= t < now d + 1000 * N.of_nat INTERVAL)%N ->
    let d' := wait INTERVAL d in
    shutdown d' = true /\
    (now d' <= t + 1000)%N /\
    ((now d' < t + 1000)%N \/
     exists k, t = (now d + 1000 * N.of_nat k)%N) /\
    (1000 * N.of_nat INTERVAL = 3600 * 1000)%N /\
    (exists a, In a (pending d) /\ (fst a <= t)%N /\ (fst a < now d')%N) /\
    (exists more s0,
       log (state d') = log (state d) ++ more /\
       In (ReceivedSignal s0) more) /\
    (forall a,
       In a (pending d') <-> In a (pending d) /\ (now d' <= fst a)%N) /\
    (now d < now d')%N /\
    now d' = (now d + 1000 * N.of_nat (slices d' - slices d))%N /\
    cycles d' = cycles d /\
    while_loop inputs (S fuel) d' = (Stopped, d').
Proof.
  intros inputs fuel d t s Hs Hin Ht d'. subst d'.
  destruct (@wait_signal INTERVAL d t s Hs Hin Ht) as (Hsh & Hle & Hstrict).
  assert (Hfirst : (now d < now (wait INTERVAL d))%N /\
            forall a,
              In a (pending (wait INTERVAL d))
                <-> In a (pending d) /\ (now (wait INTERVAL d) <= fst a)%N).
  { change INTERVAL with (S 3599). now apply wait_first_slice. }
  destruct Hfirst as (Hlater & Hpending).
  split; [exact Hsh|]. split; [exact Hle|]. split; [exact Hstrict|].
  split; [reflexivity|].
  split.
  { destruct (N.ltb_spec t (now (wait INTERVAL d))) as [Hobs | Hearly].
    - exists (t, s). cbn [fst]. split; [exact Hin|]. split; [lia | exact Hobs].
    - pose proof (follows_wait INTERVAL d) as (_ & _ & _ & Hflag).
      destruct (Hflag Hsh) as [Hset | (a & Ha & Hlt)]; [congruence|].
      exists a. split; [exact Ha|]. split; [lia | exact Hlt]. }
  split.
  { destruct (logged_wait INTERVAL d) as (more & Hlog & Hflag).
    destruct (Hflag Hsh) as [Hset | (s0 & Hs0)]; [congruence|].
    exists more, s0. auto. }
  split; [exact Hpending|]. split; [exact Hlater|].
  split; [apply wait_account|]. split; [apply wait_cycles|].
  cbn [while_loop]. now rewrite Hsh.
Qed.

Lemma wait_abandoned_on_signal_witness :
  let d' := wait INTERVAL waiting in
  shutdown d' = true /\
  (now d' <= 2500 + 1000)%N /\
  ((now d' < 2500 + 1000)%N \/
   exists k, 2500%N = (now waiting + 1000 * N.of_nat k)%N) /\
  (1000 * N.of_nat INTERVAL = 3600 * 1000)%N /\
  (exists a,
     In a (pending waiting) /\ (fst a <= 2500)%N /\ (fst a < now d')%N) /\
  (exists more s0,
     log (state d') = log (state waiting) ++ more /\
     In (ReceivedSignal s0) more) /\
  (forall a,
     In a (pending d') <-> In a (pending waiting) /\ (now d' <= fst a)%N) /\
  (now waiting < now d')%N /\
  now d' = (now waiting + 1000 * N.of_nat (slices d' - slices waiting))%N /\
  cycles d' = cycles waiting /\
  while_loop (fun _ => failing_cycle) 1 d' = (Stopped, d').
Proof.
  apply (@wait_abandoned_on_signal (fun _ => failing_cycle) 0 waiting
           2500%N SIGTERM).
  - reflexivity.
  - left. reflexivity.
  - split; [vm_compute; discriminate | vm_compute; reflexivity].
Defined.

Example signal_during_third_slice :
  now (wait INTERVAL waiting) = 3005%N /\
  slices (wait INTERVAL waiting) = 3 /\
  fst (daemon_loop
         {| arrivals := [(2500%N, SIGTERM)]; inputs := fun _ => failing_cycle |}
         2 first_run) = Stopped /\
  cycles (snd (daemon_loop
         {| arrivals := [(2500%N, SIGTERM)]; inputs := fun _ => failing_cycle |}
         2 first_run)) = 1.
Proof. vm_compute. repeat split. Qed.

(** ** How the process ends *)

(** X10.  Without ["--daemon"] among the arguments, [main] ends in one
    of three ways.  When [setup_logging] raises, the process exits with
    status 1 before any cycle.  When a signal arrives before the cycle
    has ended, the signal ends the process, no handler being installed.
    Otherwise the process exits with status 0 and the world of the cycle
    when the cycle returns, and with status 1, the error appended to the
    log, when the cycle raises. *)
Theorem single_shot_exit_status :
  forall argv log_ok env fuel w,
    existsb (Str.eqb daemon_flag) argv = false ->
    main argv log_ok env fuel w =
      if negb log_ok then Exited 1 w
      else if existsb (arrives_before (duration (inputs env 0)))
                (arrivals env)
      then Interrupted
      else
        match run_once (inputs env 0) w with
        | (Return _, w') => Exited 0 w'
        | (Raise e, w') => Exited 1 (add_log w' (ErrorShowingQuote e))
        end.
Proof.
  intros argv log_ok env fuel w Hflag.
  unfold main, setup_logging. destruct log_ok; cbn [negb]; [|reflexivity].
  rewrite Hflag.
  destruct (existsb (arrives_before (duration (inputs env 0)))
              (arrivals env)); [reflexivity|].
  unfold main_once.
  destruct (run_once (inputs env 0) w) as [[[]|e] w'] eqn:Hrun;
    [reflexivity|].
  assert (Hord : ordinary e) by (eapply run_once_ordinary; exact Hrun).
  unfold ordinary in Hord. now rewrite Hord.
Qed.

Lemma single_shot_exit_status_witness :
  main [of_ascii "happyquotes.py"%string] true
       {| arrivals := []; inputs := fun _ => failing_cycle |} 0 first_run
    = if negb true then Exited 1 first_run
      else if existsb (arrives_before (duration failing_cycle)) []
      then Interrupted
      else
        match run_once failing_cycle first_run with
        | (Return _, w') => Exited 0 w'
        | (Raise e, w') => Exited 1 (add_log w' (ErrorShowingQuote e))
        end.
Proof.
  apply (@single_shot_exit_status [of_ascii "happyquotes.py"%string] true
           {| arrivals := []; inputs := fun _ => failing_cycle |} 0
           first_run).
  reflexivity.
Defined.

(** X11.  With ["--daemon"] among the arguments, whatever else they
    hold, the process ends in one of two ways.  Either [setup_logging]
    has raised: the status is 1 and no cycle has run.  Or the loop has
    returned: the status is 0, a signal of the environment has arrived,
    and "Daemon started", a "Received signal" and "Daemon stopped" are
    among the new lines of the log.  No exception of a cycle ends the
    process. *)
Theorem daemon_mode_exit :
  forall argv log_ok env fuel w status w',
    existsb (Str.eqb daemon_flag) argv = true ->
    main argv log_ok env fuel w = Exited status w' ->
    (log_ok = false /\ status = 1%Z /\ w' = w) \/
    (log_ok = true /\ status = 0%Z /\
     (exists a, In a (arrivals env)) /\
     exists more s,
       log w' = log w ++ more /\
       In (DaemonStarted INTERVAL) more /\
       In (ReceivedSignal s) more /\
       In DaemonStopped more).
Proof.
  intros argv log_ok env fuel w status w' Hflag Hmain.
  unfold main, setup_logging, daemon_loop in Hmain.
  destruct log_ok; [|inversion Hmain; left; auto].
  rewrite Hflag in Hmain. right.
  pose proof (while_loop_outcome (inputs env) fuel (start env w)) as Hout.
  pose proof (while_loop_follows (inputs env) fuel (start env w))
    as (_ & _ & _ & Hflagged).
  pose proof (logged_while_loop (inputs env) fuel (start env w))
    as (more & Hlog & Hsig).
  destruct (while_loop (inputs env) fuel (start env w)) as [[|e|] d];
    cbn [fst snd] in *; [|destruct Hout|discriminate Hmain].
  inversion Hmain; subst. split; [reflexivity|]. split; [reflexivity|].
  split.
  { destruct (Hflagged Hout) as [H | (a & Ha & _)]; [discriminate H|].
    now exists a. }
  destruct (Hsig Hout) as [H | (s & Hs)]; [discriminate H|].
  exists ([DaemonStarted INTERVAL] ++ more ++ [DaemonStopped]), s.
  split.
  { cbn [state add_log log]. rewrite Hlog. cbn [start state add_log log].
    now rewrite <- !app_assoc. }
  split; [apply in_or_app; left; now left|]. split.
  - apply in_or_app. right. apply in_or_app. now left.
  - apply in_or_app. right. apply in_or_app. right. now left.
Qed.

Lemma daemon_mode_exit_witness :
  let env := {| arrivals := [(2500%N, SIGTERM)];
                inputs := fun _ => failing_cycle |} in
  let argv := [of_ascii "happyquotes.py"%string; daemon_flag] in
  exists status w',
    main argv true env 2 first_run = Exited status w' /\
    ((true = false /\ status = 1%Z /\ w' = first_run) \/
     (true = true /\ status = 0%Z /\
      (exists a, In a (arrivals env)) /\
      exists more s,
        log w' = log first_run ++ more /\
        In (DaemonStarted INTERVAL) more /\
        In (ReceivedSignal s) more /\
        In DaemonStopped more)).
Proof.
  intros env argv.
  assert (Hmain : exists status w',
            main argv true env 2 first_run = Exited status w').
  { vm_compute. eexists. eexists. reflexivity. }
  destruct Hmain as (status & w' & Hmain).
  exists status, w'. split; [exact Hmain|].
  apply (@daemon_mode_exit argv true env 2 first_run status w').
  - reflexivity.
  - exact Hmain.
Defined.

(** ** The rhythm of the daemon *)

Lemma cycle_quiet inputs d :
  pending d = [] ->
  exists w,
    cycle inputs d =
      (Return tt,
       {| now := now d + duration (inputs (cycles d));
          shutdown := shutdown d; pending := []; state := w;
          cycles := S (cycles d); slices := slices d |}).
Proof.
  intros Hp. unfold cycle, try_except.
  destruct (run_once (inputs (cycles d)) (state d)) as [[[]|e] w] eqn:E.
  - exists w. rewrite elapse_quiet; [|cbn; rewrite Hp; intros a []].
    unfold later; cbn. now rewrite Hp.
  - assert (Hord : ordinary e) by (eapply run_once_ordinary; exact E).
    unfold ordinary in Hord.
    unfold caught_by. cbn [existsb]. rewrite Hord. cbn [orb].
    unfold logging_exception. eexists.
    rewrite elapse_quiet; [|cbn; rewrite Hp; intros a []].
    unfold later; cbn. now rewrite Hp.
Qed.

(** X12.  While no signal is pending, the loop is still running after
    any number of iterations, whatever the cycles did: it has run one
    cycle and slept 3600 slices of one second per iteration, the flag is
    clear, and the time passed is the time the cycles took plus one
    interval per iteration, so that the interval runs from the end of a
    cycle to the start of the next. *)
Theorem daemon_quiet_run :
  forall inputs n d,
    shutdown d = false ->
    pending d = [] ->
    exists d',
      while_loop inputs n d = (Looping, d') /\
      shutdown d' = false /\
      cycles d' = cycles d + n /\
      slices d' = slices d + n * INTERVAL /\
      now d' = (now d + total_duration inputs (cycles d) n
                  + N.of_nat n * (1000 * N.of_nat INTERVAL))%N.
Proof.
  intros inputs n. induction n as [|n IH]; intros d Hs Hp.
  - exists d. cbn [while_loop total_duration]. repeat split; auto; lia.
  - cbn [while_loop]. rewrite Hs.
    destruct (cycle_quiet inputs d Hp) as (w & ->).
    rewrite wait_quiet; [|exact Hs | intros a []].
    cbn [now shutdown pending state cycles slices].
    match goal with |- context [while_loop inputs n ?d1] =>
      destruct (IH d1 eq_refl eq_refl) as (d' & -> & Hs' & Hc & Hsl & Hn) end.
    cbn [now shutdown pending state cycles slices] in *.
    exists d'. split; [reflexivity|]. split; [exact Hs'|].
    split; [lia|]. split; [lia|].
    rewrite Hn. cbn [total_duration]. lia.
Qed.

Lemma daemon_quiet_run_witness :
  exists d',
    while_loop (fun _ => failing_cycle) 2 undisturbed = (Looping, d') /\
    shutdown d' = false /\
    cycles d' = cycles undisturbed + 2 /\
    slices d' = slices undisturbed + 2 * INTERVAL /\
    now d' = (now undisturbed
                + total_duration (fun _ => failing_cycle)
                    (cycles undisturbed) 2
                + N.of_nat 2 * (1000 * N.of_nat INTERVAL))%N.
Proof.
  apply (@daemon_quiet_run (fun _ => failing_cycle) 2 undisturbed).
  - reflexivity.
  - reflexivity.
Defined.

Lemma elapse_state ms d :
  scripts (state (elapse ms d)) = scripts (state d) /\
  history_file (state (elapse ms d)) = history_file (state d).
Proof.
  unfold elapse.
  match goal with |- context [fold_left ?f ?due ?d0] =>
    destruct (handlers_state due d0) as (_ & Hs & Hh) end.
  cbn zeta in *. rewrite Hs, Hh. split; reflexivity.
Qed.

(** X13.  A signal that arrives while a cycle is in progress does not
    cut the cycle short: the cycle runs to its end, with the scripts it
    dispatches and the history it saves, the wait that follows sleeps not
    a single slice, and the loop returns without a further cycle. *)
Theorem signal_during_cycle :
  forall inputs fuel d t s,
    shutdown d = false ->
    In (t, s) (pending d) ->
    (now d <= t < now d + duration (inputs (cycles d)))%N ->
    exists d1,
      cycle inputs d = (Return tt, d1) /\
      scripts (state d1)
        = scripts (snd (run_once (inputs (cycles d)) (state d))) /\
      history_file (state d1)
        = history_file (snd (run_once (inputs (cycles d)) (state d))) /\
      shutdown d1 = true /\
      now d1 = (now d + duration (inputs (cycles d)))%N /\
      cycles d1 = S (cycles d) /\
      slices d1 = slices d /\
      while_loop inputs (S (S fuel)) d = (Stopped, d1).
Proof.
  intros inputs fuel d t s Hs Hin Ht.
  assert (Hshape : exists w,
    scripts w = scripts (snd (run_once (inputs (cycles d)) (state d))) /\
    history_file w
      = history_file (snd (run_once (inputs (cycles d)) (state d))) /\
    cycle inputs d =
      (Return tt,
       elapse (duration (inputs (cycles d)))
         {| now := now d; shutdown := shutdown d; pending := pending d;
            state := w; cycles := S (cycles d); slices := slices d |})).
  { unfold cycle, try_except.
    destruct (run_once (inputs (cycles d)) (state d)) as [[[]|e] w] eqn:E.
    - exists w. auto.
    - assert (Hord : ordinary e) by (eapply run_once_ordinary; exact E).
      unfold ordinary in Hord.
      unfold caught_by. cbn [existsb]. rewrite Hord. cbn [orb].
      unfold logging_exception. exists (add_log w (ErrorShowingQuote e)).
      repeat split. }
  destruct Hshape as (w & Hscr & Hhist & Hc).
  set (d0 := {| now := now d; shutdown := shutdown d; pending := pending d;
                state := w; cycles := S (cycles d); slices := slices d |})
    in *.
  destruct (elapse_fields (duration (inputs (cycles d))) d0)
    as (Hn & _ & Hcy & Hsl & Hf).
  destruct (elapse_state (duration (inputs (cycles d))) d0) as (Hes & Heh).
  set (d1 := elapse (duration (inputs (cycles d))) d0) in *.
  cbn [now shutdown pending state cycles slices d0] in Hn, Hcy, Hsl, Hf,
    Hes, Heh.
  assert (H1 : shutdown d1 = true).
  { rewrite Hf, Hs. cbn [orb]. apply existsb_exists.
    exists (t, s). split; [exact Hin|]. apply N.ltb_lt. cbn [fst]. lia. }
  exists d1. split; [exact Hc|].
  split; [now rewrite Hes|]. split; [now rewrite Heh|].
  split; [exact H1|]. split; [exact Hn|]. split; [exact Hcy|].
  split; [exact Hsl|].
  rewrite (@while_loop_step inputs (S fuel) d d1 Hs Hc).
  rewrite (wait_shutdown INTERVAL _ H1). cbn [while_loop]. now rewrite H1.
Qed.

Lemma signal_during_cycle_witness :
  exists d1,
    cycle (fun _ => failing_cycle)
      (start {| arrivals := [(2%N, SIGINT)];
                inputs := fun _ => failing_cycle |} first_run)
      = (Return tt, d1) /\
    scripts (state d1)
      = scripts (snd (run_once failing_cycle
                        (add_log first_run (DaemonStarted INTERVAL)))) /\
    history_file (state d1)
      = history_file (snd (run_once failing_cycle
                             (add_log first_run (DaemonStarted INTERVAL)))) /\
    shutdown d1 = true /\
    now d1 = (0 + duration failing_cycle)%N /\
    cycles d1 = 1 /\
    slices d1 = 0 /\
    while_loop (fun _ => failing_cycle) 2
      (start {| arrivals := [(2%N, SIGINT)];
                inputs := fun _ => failing_cycle |} first_run)
      = (Stopped, d1).
Proof.
  apply (@signal_during_cycle (fun _ => failing_cycle) 0
           (start {| arrivals := [(2%N, SIGINT)];
                     inputs := fun _ => failing_cycle |} first_run)
           2%N SIGINT).
  - reflexivity.
  - left. reflexivity.
  - split; [vm_compute; discriminate | vm_compute; reflexivity].
Defined.

(** ** The temporary script file *)

Lemma map_untouched (l : list (nat * str)) (path : nat) (text : str) :
  (forall f, In f l -> fst f < path) ->
  map (fun f => if Nat.eqb (fst f) path then (path, text) else f) l = l.
Proof.
  induction l as [|f l IH]; intros Hlt; [reflexivity|]. cbn [map].
  assert (Hf : Nat.eqb (fst f) path = false).
  { apply Nat.eqb_neq. specialize (Hlt f (or_introl eq_refl)). lia. }
  rewrite Hf, IH; [reflexivity|]. intros g Hg. apply Hlt. now right.
Qed.

Lemma unlink_fresh (l : list (nat * str)) (path : nat) (text : str) :
  (forall f, In f l -> fst f < path) ->
  filter (fun f => negb (Nat.eqb (fst f) path)) ((path, text) :: l) = l.
Proof.
  intros Hlt. cbn [filter fst]. rewrite Nat.eqb_refl. cbn [negb].
  apply filter_all. intros f Hf. apply negb_true_iff. apply Nat.eqb_neq.
  specialize (Hlt f Hf). lia.
Qed.

(** X14.  The temporary script file never outlives the call: whether
    the write fails, osascript cannot be started, osascript reports a
    failure or all goes well, the directory of temporary files holds
    afterwards exactly the files it held before.  What osascript runs is
    the generated script, the outcome is the error of the step that
    failed, and when every step can be taken it is the outcome of
    [show_notification]. *)
Theorem temporary_script_removed :
  forall disk_ok run (t message : str) dir,
    tmpdir_ok dir ->
    tmp_files (snd (dispatch disk_ok run t message dir)) = tmp_files dir /\
    tmpdir_ok (snd (dispatch disk_ok run t message dir)) /\
    fst (dispatch disk_ok run t message dir) =
      (if disk_ok then
         match run (applescript t message) with
         | None => Raise FileNotFoundError
         | Some status =>
             if (status =? 0)%Z then Return tt else Raise RuntimeError
         end
       else Raise OSError) /\
    forall status w,
      disk_ok = true ->
      (forall script, run script = Some (status script)) ->
      fst (dispatch disk_ok run t message dir)
        = fst (show_notification status t message w).
Proof.
  intros disk_ok run t message dir Hok.
  assert (Hlt : forall f, In f (tmp_files dir) -> fst f < next_name dir)
    by exact Hok.
  assert (Hres : fst (dispatch disk_ok run t message dir) =
      (if disk_ok then
         match run (applescript t message) with
         | None => Raise FileNotFoundError
         | Some status =>
             if (status =? 0)%Z then Return tt else Raise RuntimeError
         end
       else Raise OSError)).
  { unfold dispatch, mkstemp, try_finally, write_file.
    destruct disk_ok; [|reflexivity].
    unfold subprocess_run, read_file.
    cbn [tmp_files map find fst snd].
    repeat (rewrite Nat.eqb_refl; cbn [find fst snd]).
    destruct (run (applescript t message)) as [status|]; [|reflexivity].
    destruct (status =? 0)%Z; reflexivity. }
  assert (Hfiles : tmp_files (snd (dispatch disk_ok run t message dir))
                   = tmp_files dir).
  { unfold dispatch, mkstemp, try_finally, write_file.
    destruct disk_ok.
    - unfold subprocess_run, read_file.
      cbn [tmp_files map find fst snd].
      repeat (rewrite Nat.eqb_refl; cbn [find fst snd]).
      rewrite (map_untouched _ _ Hlt).
      destruct (run (applescript t message)) as [status|];
        [destruct (status =? 0)%Z|]; cbn [snd unlink tmp_files];
        apply (unlink_fresh _ _ Hlt).
    - cbn [snd unlink tmp_files]. apply (unlink_fresh _ _ Hlt). }
  split; [exact Hfiles|]. split.
  { unfold tmpdir_ok. rewrite Hfiles. intros f Hf.
    specialize (Hlt f Hf).
    assert (Hnext : next_name dir
                    <= next_name (snd (dispatch disk_ok run t message dir))).
    { unfold dispatch, mkstemp, try_finally, write_file.
      destruct disk_ok; [|cbn; lia].
      destruct (subprocess_run _ _ _) as [status|e];
        [destruct (status =? 0)%Z|]; cbn; lia. }
    lia. }
  split; [exact Hres|].
  intros status w Hdisk Hrun. rewrite Hres, Hdisk, Hrun.
  unfold show_notification.
  destruct (status (applescript t message) =? 0)%Z; reflexivity.
Qed.

Lemma temporary_script_removed_witness :
  let dir := {| tmp_files := [(3, long_message)]; next_name := 7 |} in
  let run := fun _ : str => Some 1%Z in
  tmp_files (snd (dispatch true run title long_message dir))
    = tmp_files dir /\
  tmpdir_ok (snd (dispatch true run title long_message dir)) /\
  fst (dispatch true run title long_message dir) =
    (if true then
       match run (applescript title long_message) with
       | None => Raise FileNotFoundError
       | Some status =>
           if (status =? 0)%Z then Return tt else Raise RuntimeError
       end
     else Raise OSError) /\
  forall status w,
    true = true ->
    (forall script, run script = Some (status script)) ->
    fst (dispatch true run title long_message dir)
      = fst (show_notification status title long_message w).
Proof.
  apply (@temporary_script_removed true (fun _ => Some 1%Z) title
           long_message {| tmp_files := [(3, long_message)]; next_name := 7 |}).
  intros f [<- | []]. cbn. lia.
Defined.

(** ** The length of what is shown *)

(** X15.  Whatever the message, the body that is dispatched has the
    length of the message or 200 characters, whichever is less; it is the
    message itself exactly when the message has at most 200 characters;
    and truncating twice changes nothing more. *)
Theorem notification_body_bounded :
  forall message : str,
    length (notification_body message)
      = Nat.min (length message) MAX_QUOTE_LEN /\
    (notification_body message = message
       <-> length message <= MAX_QUOTE_LEN) /\
    notification_body (notification_body message)
      = notification_body message.
Proof.
  intros message. unfold MAX_QUOTE_LEN.
  assert (Hlen : length (notification_body message)
                 = Nat.min (length message) 200).
  { unfold notification_body, MAX_QUOTE_LEN.
    destruct (Nat.ltb_spec 200 (length message)) as [Hlong | Hshort].
    - rewrite length_app, length_firstn. cbn [length]. lia.
    - lia. }
  split; [exact Hlen|]. split.
  - split.
    + intros E. rewrite E in Hlen. lia.
    + intros Hshort. unfold notification_body, MAX_QUOTE_LEN.
      destruct (Nat.ltb_spec 200 (length message)); [lia | reflexivity].
  - unfold notification_body at 1. unfold MAX_QUOTE_LEN.
    destruct (Nat.ltb_spec 200 (length (notification_body message)));
      [lia | reflexivity].
Qed.

(** X16.  The line of a quote is truncated as a whole, author included:
    when the text of the quote has at least 194 characters and the line
    has more than 200, the body that is shown is cut from the quoted text
    and the dash alone, and not one character of the author is in it. *)
Theorem long_quote_hides_author :
  forall q : quote,
    194 <= length (quote_q q) ->
    MAX_QUOTE_LEN < length (quote_text q) ->
    notification_body (quote_text q)
      = firstn 199
          ([dquote] ++ quote_q q ++ [dquote; space; em_dash; space])
        ++ [ellipsis].
Proof.
  intros q Hlong Hline. rewrite (notification_body_long _ Hline).
  unfold MAX_QUOTE_LEN. change (200 - 1) with 199. f_equal.
  unfold quote_text.
  replace ([dquote] ++ quote_q q ++ [dquote; space; em_dash; space]
             ++ quote_a q)
    with (([dquote] ++ quote_q q ++ [dquote; space; em_dash; space])
            ++ quote_a q)
    by (now rewrite <- !app_assoc).
  rewrite firstn_app.
  replace (199 - length
             ([dquote] ++ quote_q q ++ [dquote; space; em_dash; space]))
    with 0 by (rewrite !length_app; cbn [length]; lia).
  cbn [firstn]. apply app_nil_r.
Qed.

Lemma long_quote_hides_author_witness :
  notification_body
    (quote_text {| quote_q := long_message; quote_a := quote_a hello |})
    = firstn 199
        ([dquote] ++ long_message ++ [dquote; space; em_dash; space])
      ++ [ellipsis].
Proof.
  apply (@long_quote_hides_author
           {| quote_q := long_message; quote_a := quote_a hello |}).
  - cbn [quote_q]. unfold long_message. rewrite repeat_length. lia.
  - unfold MAX_QUOTE_LEN, quote_text. cbn [quote_q quote_a].
    rewrite !length_app. unfold long_message. rewrite repeat_length.
    cbn [length]. lia.
Defined.

(** ** Escaping, further *)

(** X17.  [_applescript_escape] is injective, so two different strings
    never give the same literal, and it lengthens a string by exactly the
    number of backslashes and double quotes in it; a string without
    either is left as it is. *)
Theorem applescript_escape_faithful :
  forall s1 s2 : str,
    (_applescript_escape s1 = _applescript_escape s2 -> s1 = s2) /\
    length (_applescript_escape s1)
      = length s1 + length (filter special s1) /\
    (filter special s1 = [] -> _applescript_escape s1 = s1).
Proof.
  intros s1 s2. split; [|split].
  - intros E.
    pose proof (read_literal_escaped s1 []) as R1.
    pose proof (read_literal_escaped s2 []) as R2.
    rewrite <- !applescript_escape_chars in R1, R2.
    rewrite E, R2 in R1. now inversion R1.
  - rewrite applescript_escape_chars.
    induction s1 as [|c s IH]; [reflexivity|].
    cbn [flat_map filter]. rewrite length_app, IH.
    unfold escape_char, special.
    destruct (char_eqb c backslash); [cbn; lia|].
    destruct (char_eqb c dquote); cbn; lia.
  - rewrite applescript_escape_chars.
    induction s1 as [|c s IH]; [reflexivity|].
    cbn [flat_map filter]. unfold special.
    destruct (char_eqb c backslash) eqn:Eb; [discriminate|].
    destruct (char_eqb c dquote) eqn:Eq; [discriminate|].
    cbn [orb]. intros E. unfold escape_char at 1. rewrite Eb, Eq.
    cbn [app]. now rewrite IH.
Qed.

(** ** What of the history matters *)

(** X18.  The choice depends on the history only through which texts of
    the pool it holds: two histories that agree on that, whatever their
    order, their repetitions, their entries that match no quote of the
    pool or are no strings, lead the same draw to the same quote or the
    same error. *)
Theorem selection_depends_on_membership :
  forall rng (pool : list quote) (items1 items2 : list json) w1 w2,
    load_history w1 = (Return (JArr items1), w1) ->
    load_history w2 = (Return (JArr items2), w2) ->
    history_writable w1 = history_writable w2 ->
    (forall q, In q pool ->
       (In (JStr (quote_q q)) items1 <-> In (JStr (quote_q q)) items2)) ->
    fst (pick_quote rng pool w1) = fst (pick_quote rng pool w2).
Proof.
  intros rng pool items1 items2 w1 w2 H1 H2 Hw Hsame.
  assert (Hfresh : fresh pool items1 = fresh pool items2).
  { unfold fresh. apply filter_ext_in. intros q Hq. f_equal.
    specialize (Hsame q Hq). rewrite <- !py_in_list in Hsame.
    destruct (existsb (str_eq_json (quote_q q)) items1),
             (existsb (str_eq_json (quote_q q)) items2);
      intuition congruence. }
  rewrite (pick_quote_list _ _ H1), (pick_quote_list _ _ H2), Hfresh.
  destruct (fresh pool items2) as [|a rest]; unfold choose_and_save;
    rewrite Hw;
    (match goal with |- context [random_choice rng ?l] =>
       destruct (random_choice rng l) end);
    destruct (history_writable w2); reflexivity.
Qed.

Lemma selection_depends_on_membership_witness :
  fst (pick_quote 0 two_quotes second_run)
    = fst (pick_quote 0 two_quotes
             (set_history first_run
                (File (Document
                   (JArr [JInt 7; JStr (quote_q hello); JStr daemon_flag;
                          JStr (quote_q hello)]))))).
Proof.
  apply (@selection_depends_on_membership 0 two_quotes
           [JStr (quote_q hello)]
           [JInt 7; JStr (quote_q hello); JStr daemon_flag;
            JStr (quote_q hello)]).
  - reflexivity.
  - reflexivity.
  - reflexivity.
  - intros q [<- | [<- | []]]; cbn; split; intros H;
      repeat (destruct H as [H | H]; try discriminate H; auto).
Defined.
